(** * A shallow embedding of [roman.py] (class [Roman], function [int_to_roman])

    Python strings are modelled as ASCII [string]s, Python integers as [Z].
    The argument of [int_to_roman] may be an [int] or a [float]: it is
    modelled by its exact value, a rational [Q] (every finite float is one);
    [int(x)] truncates toward zero.

    A [Roman] instance is a record of its attributes.  Methods that mutate
    the instance run in a small state monad [St] over the instance that also
    records Python exceptions (which do not roll back the writes done before
    them) and the lines written by [print]. *)

From Stdlib Require Import String Ascii ZArith List QArith Bool Lia.
Import ListNotations.
Open Scope string_scope.
Open Scope Z_scope.

(** ** Exceptions and results *)

(** The reasons of the [ValueError]s raised by the module. *)
Inductive value_error :=
  | BadChar (c : ascii) (position : nat)   (* "{} at position {} is not a valid roman numeral." *)
  | NotValidRoman (numeral : string)       (* "{} is not a valid roman numeral" *)
  | ArbitraryValue                         (* "You can't assign arbitrary values ..." *)
  | InvalidValue (x : Q)                   (* "Invalid value for conversion: {}" *)
  | NegativeNotAllowed.                    (* "Negative integers not allowed." *)

Inductive exn :=
  | ValueError (e : value_error)
  | KeyError (key : string)
  | AttributeError.

Inductive result (A : Type) :=
  | Ret (a : A)
  | Raise (e : exn).
Arguments Ret {A} a.
Arguments Raise {A} e.

(** ** The token table [Roman.tokens] (an [OrderedDict], in this order) *)

Record token_info := mk_info { tok_value : Z; subtractives : list string }.

Definition tokens : list (string * token_info) := [
  ("I",  mk_info 1 ["IV"; "IX"]);
  ("IV", mk_info 4 []);
  ("V",  mk_info 5 []);
  ("IX", mk_info 9 []);
  ("X",  mk_info 10 ["XL"; "XC"]);
  ("XL", mk_info 40 []);
  ("L",  mk_info 50 []);
  ("XC", mk_info 90 []);
  ("C",  mk_info 100 ["CD"; "CM"]);
  ("CD", mk_info 400 []);
  ("D",  mk_info 500 []);
  ("CM", mk_info 900 []);
  ("M",  mk_info 1000 [])
].

Fixpoint assoc_lookup {A} (k : string) (l : list (string * A)) : option A :=
  match l with
  | [] => None
  | (k', a) :: l' => if String.eqb k k' then Some a else assoc_lookup k l'
  end.

(** [Roman.tokens[k]]: a [KeyError] when [k] is not a key. *)
Definition tokens_get (k : string) : result token_info :=
  match assoc_lookup k tokens with
  | Some info => Ret info
  | None => Raise (KeyError k)
  end.

(** [k in Roman.tokens.keys()] *)
Definition tokens_mem (k : string) : bool :=
  existsb (String.eqb k) (map fst tokens).

(** [{k:i for i,k in enumerate(reversed(Roman.tokens.keys()))}[k]];
    [None] is a [KeyError]. *)
Fixpoint index_of (k : string) (l : list string) : option nat :=
  match l with
  | [] => None
  | k' :: l' => if String.eqb k k' then Some 0%nat
                else option_map S (index_of k l')
  end.

Definition token_index (k : string) : option nat :=
  index_of k (rev (map fst tokens)).

(** [str.upper()] on ASCII strings. *)
Definition ascii_upper (c : ascii) : ascii :=
  let n := nat_of_ascii c in
  if ((97 <=? n) && (n <=? 122))%nat then ascii_of_nat (n - 32) else c.

Fixpoint upper (s : string) : string :=
  match s with
  | EmptyString => EmptyString
  | String c s' => String (ascii_upper c) (upper s')
  end.

(** ** The instance *)

(** The attributes of a [Roman] instance.  [value = None] stands for the
    attribute [_value] not being set yet (reading [self.value] then raises
    [AttributeError]); it only occurs during [__init__]. *)
Record Roman := mk_roman {
  numeral : string;
  subtractive_notation : bool;
  check : bool;
  is_valid : bool;
  value : option Z
}.

Definition set_numeral (r : Roman) (s : string) : Roman :=
  mk_roman s (subtractive_notation r) (check r) (is_valid r) (value r).
Definition set_subtractive_notation (r : Roman) (b : bool) : Roman :=
  mk_roman (numeral r) b (check r) (is_valid r) (value r).
Definition set_check (r : Roman) (b : bool) : Roman :=
  mk_roman (numeral r) (subtractive_notation r) b (is_valid r) (value r).
Definition set_is_valid (r : Roman) (b : bool) : Roman :=
  mk_roman (numeral r) (subtractive_notation r) (check r) b (value r).
Definition set_value (r : Roman) (v : option Z) : Roman :=
  mk_roman (numeral r) (subtractive_notation r) (check r) (is_valid r) v.

(** ** [Roman._get_token] *)

Definition get_token (self : Roman) (index : nat) (char : ascii)
  : result (string * bool * Z) :=
  let c := String char EmptyString in
  match tokens_get c with
  | Raise e => Raise e
  | Ret info =>
      match subtractives info with
      | [] => Ret (c, false, 0)
      | subtr =>
          if subtractive_notation self then
            match String.get (S index) (numeral self) with
            | None => Ret (c, false, 2)                  (* IndexError: pass *)
            | Some next_char =>
                let dg := c ++ String next_char EmptyString in
                if existsb (String.eqb dg) subtr
                then Ret (dg, true, 2)
                else Ret (c, false, 2)
            end
          else Ret (c, false, 3)
      end
  end.

(** ** [Roman.roman_to_int]: the loop over [enumerate(self.numeral)] *)

Fixpoint roman_to_int_loop (self : Roman) (chars : string) (index : nat)
    (skip_next_char : bool) (integer : Z) : result Z :=
  match chars with
  | EmptyString => Ret integer
  | String char rest =>
      if skip_next_char then roman_to_int_loop self rest (S index) false integer
      else
        match get_token self index char with
        | Raise e => Raise e
        | Ret (present_token, skip, _) =>
            match tokens_get present_token with
            | Raise e => Raise e
            | Ret info =>
                roman_to_int_loop self rest (S index) skip
                  (integer + tok_value info)
            end
        end
  end.

Definition roman_to_int (self : Roman) : result Z :=
  roman_to_int_loop self (numeral self) 0 false 0.

(** ** [Roman._is_valid_roman] *)

Fixpoint is_valid_loop (self : Roman) (chars : string) (index : nat)
    (skip_next_char : bool) (previous_token : string) (repetitions : Z)
    : result bool :=
  match chars with
  | EmptyString => Ret true
  | String char rest =>
      if skip_next_char
      then is_valid_loop self rest (S index) false previous_token repetitions
      else
        match get_token self index char with
        | Raise e => Raise e
        | Ret (present_token, skip, max_rep) =>
            if existsb (String.eqb previous_token) ["IV"; "IX"] then Ret false
            else if String.eqb previous_token present_token then
              let repetitions := repetitions + 1 in
              if (max_rep <? repetitions) && negb (String.eqb present_token "M")
              then Ret false
              else is_valid_loop self rest (S index) skip present_token repetitions
            else
              let modifier :=
                if existsb (String.eqb previous_token) ["XL"; "CD"] then 1%nat
                else if existsb (String.eqb previous_token) ["XC"; "CM"] then 3%nat
                else 0%nat in
              match token_index previous_token, token_index present_token with
              | Some i, Some j =>
                  if (j <? i + modifier)%nat then Ret false
                  else is_valid_loop self rest (S index) skip present_token 0
              | _, _ => (* KeyError: pass *)
                  is_valid_loop self rest (S index) skip present_token 0
              end
        end
  end.

Definition is_valid_roman (self : Roman) : result bool :=
  is_valid_loop self (numeral self) 0 false "" 0.

(** ** [int_to_roman] *)

(** The inner [for rom_val in reversed(Roman.tokens.keys())] loop: the
    first token (of the notation) whose value does not exceed [integer]. *)
Fixpoint pick (subtr_notation : bool) (toks : list (string * token_info))
    (integer : Z) : option (string * Z) :=
  match toks with
  | [] => None
  | (rom_val, info) :: toks' =>
      if (String.length rom_val =? 2)%nat && negb subtr_notation
      then pick subtr_notation toks' integer
      else if integer >=? tok_value info then Some (rom_val, tok_value info)
      else pick subtr_notation toks' integer
  end.

(** The [while integer > 0] loop; each round removes at least 1, so
    [Z.to_nat integer] rounds suffice.  ([pick] never fails on a positive
    integer: the [None] branch, where Python would loop forever, is dead.) *)
Fixpoint int_to_roman_loop (fuel : nat) (subtr_notation : bool) (integer : Z)
    (roman : string) : string :=
  match fuel with
  | O => roman
  | S fuel' =>
      if 0 <? integer then
        match pick subtr_notation (rev tokens) integer with
        | Some (rom_val, int_val) =>
            int_to_roman_loop fuel' subtr_notation (integer - int_val)
              (roman ++ rom_val)
        | None => roman
        end
      else roman
  end.

(** Python's [int(x)]: truncation toward zero. *)
Definition py_int (x : Q) : Z := Z.quot (Qnum x) (Zpos (Qden x)).

Definition int_to_roman (integer : Q) (subtr_notation accept_negative : bool)
  : result string :=
  if negb (Qeq_bool (inject_Z (py_int integer)) integer)
  then Raise (ValueError (InvalidValue integer))
  else
    (* [integer] is integral from here on: it equals [py_int integer] *)
    let n := py_int integer in
    if n <? 0 then
      if accept_negative
      then Ret ("-" ++ int_to_roman_loop (Z.to_nat (Z.abs n)) subtr_notation
                         (Z.abs n) "")
      else Raise (ValueError NegativeNotAllowed)
    else Ret (int_to_roman_loop (Z.to_nat n) subtr_notation n "").


(** ** The state monad of the methods *)

(** A method run: its outcome (a value or a raised exception), the
    instance afterwards and the lines it printed. *)
Definition St (A : Type) := Roman -> result A * Roman * list string.

Definition ret {A} (a : A) : St A := fun r => (Ret a, r, []).

Definition bind {A B} (m : St A) (k : A -> St B) : St B := fun r =>
  match m r with
  | (Ret a, r1, o1) => let '(res, r2, o2) := k a r1 in (res, r2, (o1 ++ o2)%list)
  | (Raise e, r1, o1) => (Raise e, r1, o1)
  end.

Notation "x <- m ;; k" := (bind m (fun x => k))
  (at level 61, m at next level, right associativity).
Notation "m ;; k" := (bind m (fun _ => k))
  (at level 61, right associativity).

Definition raise {A} (e : exn) : St A := fun r => (Raise e, r, []).
Definition lift {A} (x : result A) : St A :=
  match x with Ret a => ret a | Raise e => raise e end.
Definition get : St Roman := fun r => (Ret r, r, []).
Definition put (r : Roman) : St unit := fun _ => (Ret tt, r, []).
Definition print (line : string) : St unit := fun r => (Ret tt, r, [line]).

(** [try: m except AttributeError: pass] *)
Definition try_except_attribute_error (m : St unit) : St unit := fun r =>
  match m r with
  | (Raise AttributeError, r1, o) => (Ret tt, r1, o)
  | x => x
  end.

(** ** Properties *)

(** The getter of [value]. *)
Definition value_get : St Z :=
  self <- get ;;
  match value self with
  | Some v => ret v
  | None => raise AttributeError
  end.

Definition mismatch_message : string :=
  "You can't change the value of Roman number. Build new instance instead.".

(** The setter of [numeral], in its branch for an instance whose
    [_numeral] is already set (the [_numeral is None] branch is only taken
    by [__init__], see [init_body]). *)
Definition numeral_setter (numeral_ : string) : St unit :=
  old_value <- value_get ;;
  self <- get ;;
  let old_numeral := numeral self in
  put (set_numeral self (upper numeral_)) ;;
  self <- get ;;
  new_value <- lift (roman_to_int self) ;;
  if negb (old_value =? new_value) then
    print mismatch_message ;;
    self <- get ;;
    put (set_numeral self old_numeral)
  else ret tt.

(** The setter of [value]. *)
Definition value_setter (integer : Z) : St unit :=
  self <- get ;;
  current <- lift (roman_to_int self) ;;
  if negb (integer =? current) then raise (ValueError ArbitraryValue)
  else (self <- get ;; put (set_value self (Some integer))).

(** The setter of [subtractive_notation].  Its [isinstance(value, bool)]
    guard is implied by the type of [b]. *)
Definition subtractive_notation_setter (b : bool) : St unit :=
  self <- get ;;
  put (set_subtractive_notation self b) ;;
  try_except_attribute_error (
    v <- value_get ;;
    self <- get ;;
    s <- lift (int_to_roman (inject_Z v) (subtractive_notation self) false) ;;
    numeral_setter s).

(** [Roman.check_validity] *)
Definition check_validity (check_ : bool) : St unit :=
  self <- get ;;
  valid <- lift (is_valid_roman self) ;;
  put (set_is_valid self valid) ;;
  if check_ && negb valid then
    (self <- get ;; raise (ValueError (NotValidRoman (numeral self))))
  else ret tt.

(** The character check of [__init__]. *)
Fixpoint check_chars (s : string) (index : nat) : result unit :=
  match s with
  | EmptyString => Ret tt
  | String char rest =>
      if negb (tokens_mem (String char EmptyString))
      then Raise (ValueError (BadChar char index))
      else check_chars rest (S index)
  end.

(** ** [Roman.__init__] *)

Definition init_body (numeral_ : string) (check_ subtractive_notation_ : bool)
  : St unit :=
  (* self._numeral = None; self.numeral = numeral.upper() *)
  self <- get ;;
  put (set_numeral self (upper (upper numeral_))) ;;
  (* self._subtractive_notation = None;
     self.subtractive_notation = subtractive_notation *)
  subtractive_notation_setter subtractive_notation_ ;;
  self <- get ;;
  lift (check_chars (numeral self) 0) ;;
  self <- get ;;
  put (set_check self check_) ;;
  check_validity check_ ;;
  (* self._value = None; self.value = self.roman_to_int() *)
  self <- get ;;
  v <- lift (roman_to_int self) ;;
  value_setter v.

(** The fresh object [__init__] starts from: no attribute set yet. *)
Definition fresh : Roman := mk_roman "" false false false None.

(** [Roman(numeral, check, subtractive_notation)]: the new instance, or
    the exception the constructor raises. *)
Definition Roman_init (numeral_ : string) (check_ subtractive_notation_ : bool)
  : result Roman :=
  match init_body numeral_ check_ subtractive_notation_ fresh with
  | (Ret _, r, _) => Ret r
  | (Raise e, _, _) => Raise e
  end.

(** [int_to_roman] on a Python [int]. *)
Definition int_to_roman_int (n : Z) (subtr_notation accept_negative : bool) :=
  int_to_roman (inject_Z n) subtr_notation accept_negative.

(** ** Vocabulary of the statements *)

(** An instance whose rendering is [s] in notation [b]: what
    [roman_to_int] and [_is_valid_roman] read of [self]. *)
Definition rendering (s : string) (b : bool) : Roman :=
  mk_roman s b false false None.

(** The string [int_to_roman] builds for a non-negative integer. *)
Definition encode (b : bool) (n : Z) : string :=
  int_to_roman_loop (Z.to_nat n) b n "".

(** [t * k] for a Python string [t]. *)
Fixpoint repeat_str (t : string) (k : nat) : string :=
  match k with
  | O => ""
  | S k' => t ++ repeat_str t k'
  end.

(** The tokens a numeral is cut into under each notation: all of them
    under subtractive notation, the single letters otherwise. *)
Definition notation_tokens (b : bool) : list string :=
  if b then map fst tokens
  else filter (fun t => (String.length t =? 1)%nat) (map fst tokens).

(** Strings over the alphabet [I V X L C D M]. *)
Fixpoint over_alphabet (s : string) : bool :=
  match s with
  | EmptyString => true
  | String c s' =>
      existsb (Ascii.eqb c) ["I"; "V"; "X"; "L"; "C"; "D"; "M"]%char
      && over_alphabet s'
  end.

(** One integer of the round trip, in one notation, as a decision. *)
Definition roundtrip_ok (b : bool) (n : Z) : bool :=
  match int_to_roman_int n b false with
  | Ret s =>
      match roman_to_int (rendering s b), is_valid_roman (rendering s b) with
      | Ret v, Ret true => v =? n
      | _, _ => false
      end
  | Raise _ => false
  end.

Definition res_map {A B} (f : A -> B) (x : result A) : result B :=
  match x with Ret a => Ret (f a) | Raise e => Raise e end.

(** ** Arithmetic *)

(** The right operand of an arithmetic operator: another instance, or a
    Python number (an [int] or a finite [float], by its exact value). *)
Inductive operand :=
  | RomanOperand (r : Roman)
  | NumberOperand (x : Q).

(** The exceptions of the operators: those of the rest of the module, the
    [ValueError] raised by [_valid_for_arithmetic], and the
    [ZeroDivisionError] of Python's [//], [%] and [divmod]. *)
Inductive arith_exn :=
  | CoreError (e : exn)
  | OperandError
  | ZeroDivisionError.

Inductive ares (A : Type) :=
  | ARet (a : A)
  | ARaise (e : arith_exn).
Arguments ARet {A} a.
Arguments ARaise {A} e.

Definition abind {A B} (x : ares A) (k : A -> ares B) : ares B :=
  match x with ARet a => k a | ARaise e => ARaise e end.

Definition alift {A} (x : result A) : ares A :=
  match x with Ret a => ARet a | Raise e => ARaise (CoreError e) end.

Notation "x <-? m ;; k" := (abind m (fun x => k))
  (at level 61, m at next level, right associativity).

(** [self.value] *)
Definition value_of (self : Roman) : result Z :=
  match value self with Some v => Ret v | None => Raise AttributeError end.

(** [int(other)]: [Roman.__int__] for an instance. *)
Definition int_of (other : operand) : result Z :=
  match other with
  | RomanOperand r => value_of r
  | NumberOperand x => Ret (py_int x)
  end.

(** [Roman._valid_for_arithmetic]; [arithmetic_mode] is the class
    attribute [Roman.arithmetic_mode] ("tolerant" by default). *)
Definition valid_for_arithmetic (arithmetic_mode : string) (other : operand)
  : ares bool :=
  match other with
  | RomanOperand _ => ARet true
  | NumberOperand x =>
      if negb (String.eqb arithmetic_mode "strict")
         && Qeq_bool x (inject_Z (py_int x))
      then ARet true
      else ARaise OperandError
  end.

(** [Roman(int_to_roman(n, subtr_notation=s), subtractive_notation=s)],
    the result of every operator. *)
Definition roman_of_int (n : Z) (s : bool) : ares Roman :=
  numeral_ <-? alift (int_to_roman_int n s false) ;;
  alift (Roman_init numeral_ true s).

(** Python's [a // b] and [a % b] on integers (floor division). *)
Definition py_floordiv (a b : Z) : ares Z :=
  if b =? 0 then ARaise ZeroDivisionError else ARet (a / b).
Definition py_mod (a b : Z) : ares Z :=
  if b =? 0 then ARaise ZeroDivisionError else ARet (a mod b).

Definition roman_add (arithmetic_mode : string) (self : Roman) (other : operand) :=
  _ <-? valid_for_arithmetic arithmetic_mode other ;;
  v <-? alift (value_of self) ;;
  o <-? alift (int_of other) ;;
  roman_of_int (v + o) (subtractive_notation self).

Definition roman_radd (arithmetic_mode : string) (self : Roman) (other : operand) :=
  _ <-? valid_for_arithmetic arithmetic_mode other ;;
  o <-? alift (int_of other) ;;
  v <-? alift (value_of self) ;;
  roman_of_int (o + v) (subtractive_notation self).

Definition roman_sub (arithmetic_mode : string) (self : Roman) (other : operand) :=
  _ <-? valid_for_arithmetic arithmetic_mode other ;;
  v <-? alift (value_of self) ;;
  o <-? alift (int_of other) ;;
  roman_of_int (v - o) (subtractive_notation self).

Definition roman_rsub (arithmetic_mode : string) (self : Roman) (other : operand) :=
  _ <-? valid_for_arithmetic arithmetic_mode other ;;
  o <-? alift (int_of other) ;;
  v <-? alift (value_of self) ;;
  roman_of_int (o - v) (subtractive_notation self).

Definition roman_mul (arithmetic_mode : string) (self : Roman) (other : operand) :=
  _ <-? valid_for_arithmetic arithmetic_mode other ;;
  v <-? alift (value_of self) ;;
  o <-? alift (int_of other) ;;
  roman_of_int (v * o) (subtractive_notation self).

Definition roman_rmul (arithmetic_mode : string) (self : Roman) (other : operand) :=
  _ <-? valid_for_arithmetic arithmetic_mode other ;;
  o <-? alift (int_of other) ;;
  v <-? alift (value_of self) ;;
  roman_of_int (o * v) (subtractive_notation self).

Definition roman_floordiv (arithmetic_mode : string) (self : Roman) (other : operand) :=
  _ <-? valid_for_arithmetic arithmetic_mode other ;;
  v <-? alift (value_of self) ;;
  o <-? alift (int_of other) ;;
  q <-? py_floordiv v o ;;
  roman_of_int q (subtractive_notation self).

Definition roman_rfloordiv (arithmetic_mode : string) (self : Roman) (other : operand) :=
  _ <-? valid_for_arithmetic arithmetic_mode other ;;
  o <-? alift (int_of other) ;;
  v <-? alift (value_of self) ;;
  q <-? py_floordiv o v ;;
  roman_of_int q (subtractive_notation self).

Definition roman_mod (arithmetic_mode : string) (self : Roman) (other : operand) :=
  _ <-? valid_for_arithmetic arithmetic_mode other ;;
  v <-? alift (value_of self) ;;
  o <-? alift (int_of other) ;;
  m <-? py_mod v o ;;
  roman_of_int m (subtractive_notation self).

Definition roman_rmod (arithmetic_mode : string) (self : Roman) (other : operand) :=
  _ <-? valid_for_arithmetic arithmetic_mode other ;;
  o <-? alift (int_of other) ;;
  v <-? alift (value_of self) ;;
  m <-? py_mod o v ;;
  roman_of_int m (subtractive_notation self).

(** [Roman.__divmod__]: [divmod(self.value, int(other))] as two instances. *)
Definition roman_divmod (arithmetic_mode : string) (self : Roman) (other : operand)
  : ares (Roman * Roman) :=
  _ <-? valid_for_arithmetic arithmetic_mode other ;;
  v <-? alift (value_of self) ;;
  o <-? alift (int_of other) ;;
  q <-? py_floordiv v o ;;
  m <-? py_mod v o ;;
  quotient <-? roman_of_int q (subtractive_notation self) ;;
  remainder <-? roman_of_int m (subtractive_notation self) ;;
  ARet (quotient, remainder).

Definition roman_rdivmod (arithmetic_mode : string) (self : Roman) (other : operand)
  : ares (Roman * Roman) :=
  _ <-? valid_for_arithmetic arithmetic_mode other ;;
  o <-? alift (int_of other) ;;
  v <-? alift (value_of self) ;;
  q <-? py_floordiv o v ;;
  m <-? py_mod o v ;;
  quotient <-? roman_of_int q (subtractive_notation self) ;;
  remainder <-? roman_of_int m (subtractive_notation self) ;;
  ARet (quotient, remainder).

(** [Roman.__truediv__] and [Roman.__rtruediv__]: aliases of the two above. *)
Definition roman_truediv (arithmetic_mode : string) (self : Roman) (other : operand) :=
  _ <-? valid_for_arithmetic arithmetic_mode other ;;
  roman_divmod arithmetic_mode self other.

Definition roman_rtruediv (arithmetic_mode : string) (self : Roman) (other : operand) :=
  _ <-? valid_for_arithmetic arithmetic_mode other ;;
  roman_rdivmod arithmetic_mode self other.

(** [Roman.__bool__] *)
Definition roman_bool (self : Roman) : result bool :=
  match value_of self with
  | Ret v => Ret (negb (v =? 0))
  | Raise e => Raise e
  end.

(** The value of one letter in [Roman.tokens] (0 for a non-letter). *)
Definition letter_value (c : ascii) : Z :=
  match assoc_lookup (String c EmptyString) tokens with
  | Some info => tok_value info
  | None => 0
  end.

(** The sum of the letter values of a string, each letter counted alone. *)
Fixpoint letter_sum (s : string) : Z :=
  match s with
  | EmptyString => 0
  | String c s' => letter_value c + letter_sum s'
  end.

(** The letters of a string are in non-increasing order of value. *)
Fixpoint nonincreasing (s : string) : bool :=
  match s with
  | String c ((String d _) as s') => (letter_value d <=? letter_value c) && nonincreasing s'
  | _ => true
  end.

(** * Properties *)

Lemma roundtrip_ok_upto_3999 :
  forallb (fun k => roundtrip_ok true (Z.of_nat k) && roundtrip_ok false (Z.of_nat k))
    (seq 0 4000) = true.
Proof. vm_compute. reflexivity. Qed.

Lemma roundtrip_ok_spec (b : bool) (n : Z) :
  roundtrip_ok b n = true ->
  exists s, int_to_roman_int n b false = Ret s /\
            roman_to_int (rendering s b) = Ret n /\
            is_valid_roman (rendering s b) = Ret true.
Proof.
  unfold roundtrip_ok.
  destruct (int_to_roman_int n b false) as [s|e] eqn:Es; [|discriminate].
  destruct (roman_to_int (rendering s b)) as [v|e] eqn:Ev; [|discriminate].
  destruct (is_valid_roman (rendering s b)) as [[|]|e] eqn:Eb; try discriminate.
  intros Hv; apply Z.eqb_eq in Hv; subst v.
  exists s; auto.
Qed.

Lemma roundtrip_ok_range (n : Z) :
  0 <= n <= 3999 -> roundtrip_ok true n = true /\ roundtrip_ok false n = true.
Proof.
  intros Hn.
  pose proof roundtrip_ok_upto_3999 as Hall.
  rewrite forallb_forall in Hall.
  specialize (Hall (Z.to_nat n)).
  rewrite Z2Nat.id in Hall by lia.
  apply andb_prop, Hall, in_seq; lia.
Qed.

(** C1: for every integer [n] in [0, 3999], in both notations,
    [int_to_roman(n, subtr_notation)] returns a string that [roman_to_int]
    decodes back to [n] and that [_is_valid_roman] accepts, both in that
    notation. *)
Theorem int_to_roman_round_trip (n : Z) :
  0 <= n <= 3999 ->
  (exists s, int_to_roman_int n true false = Ret s /\
             roman_to_int (rendering s true) = Ret n /\
             is_valid_roman (rendering s true) = Ret true) /\
  (exists s, int_to_roman_int n false false = Ret s /\
             roman_to_int (rendering s false) = Ret n /\
             is_valid_roman (rendering s false) = Ret true).
Proof.
  intros Hn; destruct (roundtrip_ok_range n Hn) as [Ht Hf].
  split; apply roundtrip_ok_spec; assumption.
Qed.

Lemma int_to_roman_round_trip_witness :
  (0 <= 1994 <= 3999) /\
  int_to_roman_int 1994 true false = Ret "MCMXCIV" /\
  int_to_roman_int 1994 false false = Ret "MDCCCCLXXXXIIII" /\
  ((exists s, int_to_roman_int 1994 true false = Ret s /\
             roman_to_int (rendering s true) = Ret 1994 /\
             is_valid_roman (rendering s true) = Ret true) /\
   (exists s, int_to_roman_int 1994 false false = Ret s /\
             roman_to_int (rendering s false) = Ret 1994 /\
             is_valid_roman (rendering s false) = Ret true)).
Proof.
  split; [lia|].
  split; [vm_compute; reflexivity|].
  split; [vm_compute; reflexivity|].
  apply (int_to_roman_round_trip 1994); lia.
Defined.

(** C5: under subtractive notation [_is_valid_roman] rejects "IXI" and
    "XLL", while [roman_to_int] decodes "XLL" to 90, which is the value of
    [Roman("XLL", check=False)] (an instance reported invalid). *)
Theorem validator_rejects_IXI_XLL :
  is_valid_roman (rendering "IXI" true) = Ret false /\
  is_valid_roman (rendering "XLL" true) = Ret false /\
  roman_to_int (rendering "XLL" true) = Ret 90 /\
  Roman_init "XLL" false true = Ret (mk_roman "XLL" true false false (Some 90)) /\
  Roman_init "XLL" true true = Raise (ValueError (NotValidRoman "XLL")).
Proof. vm_compute; repeat split. Qed.

(** C6: "IIII" is rejected under subtractive notation and accepted under
    additive notation; "III" is accepted under both and decodes to 3. *)
Theorem repetition_ceiling_IIII_III :
  is_valid_roman (rendering "IIII" true) = Ret false /\
  is_valid_roman (rendering "IIII" false) = Ret true /\
  is_valid_roman (rendering "III" true) = Ret true /\
  is_valid_roman (rendering "III" false) = Ret true /\
  roman_to_int (rendering "III" true) = Ret 3 /\
  roman_to_int (rendering "III" false) = Ret 3.
Proof. vm_compute; repeat split. Qed.

(** C3: the numeral setter, given a string with a character outside the
    token table, raises [KeyError] from [roman_to_int] after it has already
    stored the new rendering: the instance [Roman("X")] is left with
    rendering "Z", which no longer decodes to its value 10. *)
Theorem numeral_setter_raising_breaks_invariant :
  Roman_init "X" true true = Ret (mk_roman "X" true true true (Some 10)) /\
  numeral_setter "Z" (mk_roman "X" true true true (Some 10)) =
    (Raise (KeyError "Z"), mk_roman "Z" true true true (Some 10), []) /\
  roman_to_int (mk_roman "Z" true true true (Some 10)) = Raise (KeyError "Z").
Proof. vm_compute; repeat split. Qed.

(** ** The encoder in general *)

Lemma str_app_assoc (a b c : string) : (a ++ b) ++ c = a ++ (b ++ c).
Proof. induction a as [|x a IH]; simpl; [reflexivity|now rewrite IH]. Qed.

Lemma str_app_nil_r (a : string) : a ++ "" = a.
Proof. induction a as [|x a IH]; simpl; [reflexivity|now rewrite IH]. Qed.

Lemma int_to_roman_loop_S f b n x :
  int_to_roman_loop (S f) b n x =
  if 0 <? n then
    match pick b (rev tokens) n with
    | Some (rom_val, int_val) => int_to_roman_loop f b (n - int_val) (x ++ rom_val)
    | None => x
    end
  else x.
Proof. reflexivity. Qed.

Lemma int_to_roman_loop_app f b n (pre x : string) :
  int_to_roman_loop f b n (pre ++ x) = pre ++ int_to_roman_loop f b n x.
Proof.
  revert n x; induction f as [|f IH]; intros n x; [reflexivity|].
  rewrite !int_to_roman_loop_S.
  destruct (0 <? n); [|reflexivity].
  destruct (pick b (rev tokens) n) as [[t v]|]; [|reflexivity].
  rewrite str_app_assoc; apply IH.
Qed.

Lemma pick_bounds b l n t v :
  Forall (fun p => 1 <= tok_value (snd p)) l ->
  pick b l n = Some (t, v) -> 1 <= v <= n.
Proof.
  induction l as [|[t' i] l IH]; cbn [pick]; [discriminate|].
  intros Hpos; inversion Hpos as [|? ? Hi Hl]; subst; cbn in Hi.
  destruct (_ && _); [now apply IH|].
  destruct (n >=? tok_value i) eqn:Hge; [|now apply IH].
  intros H; injection H as <- <-; apply Z.geb_le in Hge; lia.
Qed.

Lemma tokens_positive : Forall (fun p => 1 <= tok_value (snd p)) (rev tokens).
Proof. repeat constructor; cbn; lia. Qed.

Lemma pick_last_I b l n :
  1 <= n -> pick b (l ++ [("I", mk_info 1 ["IV"; "IX"])])%list n <> None.
Proof.
  intros Hn; induction l as [|[t i] l IH]; cbn [app pick].
  - cbn [String.length Nat.eqb andb tok_value].
    replace (n >=? 1) with true by (symmetry; apply Z.geb_le; lia).
    discriminate.
  - destruct (_ && _); [exact IH|].
    destruct (n >=? tok_value i); [discriminate|exact IH].
Qed.

Lemma pick_positive b n :
  1 <= n -> exists t v, pick b (rev tokens) n = Some (t, v) /\ 1 <= v <= n.
Proof.
  intros Hn.
  destruct (pick b (rev tokens) n) as [[t v]|] eqn:Hp.
  - exists t, v; split; [reflexivity|].
    exact (pick_bounds b _ n t v tokens_positive Hp).
  - exfalso.
    assert (Hr : rev tokens = (removelast (rev tokens) ++ [("I", mk_info 1 ["IV"; "IX"])])%list)
      by reflexivity.
    rewrite Hr in Hp; exact (pick_last_I b _ n Hn Hp).
Qed.

Lemma pick_M b n : 1000 <= n -> pick b (rev tokens) n = Some ("M", 1000).
Proof.
  intros Hn.
  assert (Hr : rev tokens = ("M", mk_info 1000 []) :: tl (rev tokens)) by reflexivity.
  rewrite Hr; cbn [pick fst snd tok_value].
  replace (n >=? 1000) with true by (symmetry; apply Z.geb_le; lia).
  reflexivity.
Qed.

Lemma int_to_roman_loop_fuel f1 f2 b n x :
  (Z.to_nat n <= f1)%nat -> (Z.to_nat n <= f2)%nat ->
  int_to_roman_loop f1 b n x = int_to_roman_loop f2 b n x.
Proof.
  revert f2 n x; induction f1 as [|f1 IH]; intros f2 n x H1 H2.
  - destruct f2 as [|f2]; [reflexivity|].
    rewrite int_to_roman_loop_S.
    replace (0 <? n) with false by (symmetry; apply Z.ltb_ge; lia).
    reflexivity.
  - destruct f2 as [|f2].
    + rewrite int_to_roman_loop_S.
      replace (0 <? n) with false by (symmetry; apply Z.ltb_ge; lia).
      reflexivity.
    + rewrite !int_to_roman_loop_S.
      destruct (0 <? n) eqn:Hn; [|reflexivity].
      apply Z.ltb_lt in Hn.
      destruct (pick_positive b n) as (t & v & Hp & Hv); [lia|].
      rewrite Hp; apply IH; lia.
Qed.

Lemma encode_M b n : 1000 <= n -> encode b n = "M" ++ encode b (n - 1000).
Proof.
  intros Hn; unfold encode.
  replace (Z.to_nat n) with (S (Z.to_nat n - 1)) by lia.
  rewrite int_to_roman_loop_S.
  replace (0 <? n) with true by (symmetry; apply Z.ltb_lt; lia).
  rewrite pick_M by lia.
  change ("" ++ "M") with ("M" ++ "").
  rewrite int_to_roman_loop_app.
  f_equal; apply int_to_roman_loop_fuel; lia.
Qed.

Lemma int_to_roman_int_nonneg n b an :
  0 <= n -> int_to_roman_int n b an = Ret (encode b n).
Proof.
  intros Hn; unfold int_to_roman_int, int_to_roman, py_int; cbn [Qnum Qden inject_Z].
  rewrite Z.quot_1_r.
  replace (Qeq_bool (inject_Z n) (inject_Z n)) with true
    by (symmetry; apply Qeq_bool_iff; reflexivity).
  replace (n <? 0) with false by (symmetry; apply Z.ltb_ge; lia).
  reflexivity.
Qed.

Lemma int_to_roman_int_negative n b :
  n < 0 ->
  int_to_roman_int n b false = Raise (ValueError NegativeNotAllowed) /\
  int_to_roman_int n b true = Ret ("-" ++ encode b (- n)).
Proof.
  intros Hn; unfold int_to_roman_int, int_to_roman, py_int; cbn [Qnum Qden inject_Z].
  rewrite Z.quot_1_r.
  replace (Qeq_bool (inject_Z n) (inject_Z n)) with true
    by (symmetry; apply Qeq_bool_iff; reflexivity).
  replace (n <? 0) with true by (symmetry; apply Z.ltb_lt; lia).
  rewrite Z.abs_neq by lia.
  split; reflexivity.
Qed.

(** ** The decoder in general *)

(** [roman_to_int] reads [self] only through the lookahead
    [self.numeral[index+1]] and the notation. *)
Lemma get_token_shift r r' pre idx c :
  numeral r = pre ++ numeral r' ->
  subtractive_notation r = subtractive_notation r' ->
  get_token r (String.length pre + idx) c = get_token r' idx c.
Proof.
  intros Hn Hs; unfold get_token; rewrite Hs, Hn.
  replace (S (String.length pre + idx)) with (S idx + String.length pre)%nat by lia.
  rewrite <- append_correct2; reflexivity.
Qed.

Lemma roman_to_int_loop_shift r r' pre l idx sk acc :
  numeral r = pre ++ numeral r' ->
  subtractive_notation r = subtractive_notation r' ->
  roman_to_int_loop r l (String.length pre + idx) sk acc = roman_to_int_loop r' l idx sk acc.
Proof.
  intros Hn Hs; revert idx sk acc.
  induction l as [|c l IH]; intros idx sk acc; cbn [roman_to_int_loop]; [reflexivity|].
  rewrite <- Nat.add_succ_r.
  destruct sk; [apply IH|].
  rewrite (get_token_shift r r' pre idx c Hn Hs).
  destruct (get_token r' idx c) as [[[t sk'] m]|e]; [|reflexivity].
  destruct (tokens_get t); [apply IH|reflexivity].
Qed.

Lemma roman_to_int_loop_acc r l idx sk a :
  roman_to_int_loop r l idx sk a = res_map (Z.add a) (roman_to_int_loop r l idx sk 0).
Proof.
  revert idx sk a.
  induction l as [|c l IH]; intros idx sk a; cbn [roman_to_int_loop].
  - cbn; f_equal; lia.
  - destruct sk; [apply IH|].
    destruct (get_token r idx c) as [[[t sk'] m]|e]; [|reflexivity].
    destruct (tokens_get t) as [i|e]; [|reflexivity].
    rewrite (IH _ _ (a + _)), (IH _ _ (0 + _)).
    destruct (roman_to_int_loop r l (S idx) sk' 0); cbn; [f_equal; lia|reflexivity].
Qed.

Lemma roman_to_int_fields r :
  roman_to_int r = roman_to_int (rendering (numeral r) (subtractive_notation r)).
Proof.
  unfold roman_to_int.
  exact (roman_to_int_loop_shift r (rendering (numeral r) (subtractive_notation r))
           "" (numeral r) 0 false 0 eq_refl eq_refl).
Qed.

Lemma roman_to_int_M s b :
  roman_to_int (rendering ("M" ++ s) b) = res_map (Z.add 1000) (roman_to_int (rendering s b)).
Proof.
  unfold roman_to_int; cbn [numeral rendering].
  change ("M" ++ s) with (String "M" s) at 2.
  cbn [roman_to_int_loop].
  assert (Hg : get_token (rendering ("M" ++ s) b) 0 "M" = Ret ("M", false, 0))
    by reflexivity.
  rewrite Hg; cbn [tokens_get assoc_lookup tokens].
  change (roman_to_int_loop (rendering ("M" ++ s) b) s (String.length "M" + 0) false (0 + 1000)
          = res_map (Z.add 1000) (roman_to_int_loop (rendering s b) s 0 false 0)).
  rewrite (roman_to_int_loop_shift _ (rendering s b) "M") by reflexivity.
  apply roman_to_int_loop_acc.
Qed.

Lemma decode_encode_small b n :
  0 <= n <= 3999 -> roman_to_int (rendering (encode b n) b) = Ret n.
Proof.
  intros Hn.
  assert (Hok : roundtrip_ok b n = true)
    by (destruct (roundtrip_ok_range n Hn); destruct b; assumption).
  destruct (roundtrip_ok_spec b n Hok) as (s & Hs & Hd & _).
  rewrite int_to_roman_int_nonneg in Hs by lia.
  injection Hs as ->; exact Hd.
Qed.

(** [roman_to_int] inverts [int_to_roman] on every non-negative integer,
    in either notation. *)
Lemma decode_encode b n :
  0 <= n -> roman_to_int (rendering (encode b n) b) = Ret n.
Proof.
  intros Hn.
  assert (H : forall k : nat, forall m, 0 <= m < 1000 * (Z.of_nat k + 1) ->
            roman_to_int (rendering (encode b m) b) = Ret m).
  { induction k as [|k IH]; intros m Hm.
    - apply decode_encode_small; lia.
    - destruct (Z.lt_ge_cases m 1000) as [Hlt|Hge].
      + apply decode_encode_small; lia.
      + rewrite Nat2Z.inj_succ in Hm.
        rewrite encode_M, roman_to_int_M by lia.
        rewrite IH by lia.
        cbn [res_map]; f_equal; lia. }
  apply (H (Z.to_nat n)); rewrite Z2Nat.id by lia; lia.
Qed.

Lemma upper_app a c : upper (a ++ c) = upper a ++ upper c.
Proof. induction a as [|x a IH]; cbn; [reflexivity|now rewrite IH]. Qed.

Lemma pick_in b l n t v : pick b l n = Some (t, v) -> In t (map fst l).
Proof.
  induction l as [|[t' i] l IH]; cbn [pick map fst]; [discriminate|].
  destruct (_ && _); [intros H; right; now apply IH|].
  destruct (n >=? tok_value i); [|intros H; right; now apply IH].
  intros H; injection H as <- _; left; reflexivity.
Qed.

Lemma int_to_roman_loop_upper f b n x :
  upper x = x -> upper (int_to_roman_loop f b n x) = int_to_roman_loop f b n x.
Proof.
  revert n x; induction f as [|f IH]; intros n x Hx; [exact Hx|].
  rewrite int_to_roman_loop_S.
  destruct (0 <? n); [|exact Hx].
  destruct (pick b (rev tokens) n) as [[t v]|] eqn:Hp; [|exact Hx].
  apply IH; rewrite upper_app, Hx; f_equal.
  apply pick_in in Hp; cbn in Hp.
  repeat (destruct Hp as [<-|Hp]; [reflexivity|]); destruct Hp.
Qed.

Lemma encode_upper b n : upper (encode b n) = encode b n.
Proof. apply int_to_roman_loop_upper; reflexivity. Qed.

(** ** The constructor *)

Lemma get_token_fields r r' idx c :
  numeral r = numeral r' -> subtractive_notation r = subtractive_notation r' ->
  get_token r idx c = get_token r' idx c.
Proof. intros Hn Hs; unfold get_token; rewrite Hn, Hs; reflexivity. Qed.

Lemma is_valid_loop_fields r r' l idx sk p reps :
  numeral r = numeral r' -> subtractive_notation r = subtractive_notation r' ->
  is_valid_loop r l idx sk p reps = is_valid_loop r' l idx sk p reps.
Proof.
  intros Hn Hs; revert idx sk p reps.
  induction l as [|c l IH]; intros idx sk p reps; cbn [is_valid_loop]; [reflexivity|].
  rewrite (get_token_fields r r' idx c Hn Hs).
  destruct sk; [apply IH|].
  destruct (get_token r' idx c) as [[[t sk'] m]|e]; [|reflexivity].
  repeat match goal with
         | |- context [if ?x then _ else _] => destruct x
         | |- context [match ?x with Some _ => _ | None => _ end] => destruct x
         end; try reflexivity; apply IH.
Qed.

Lemma is_valid_roman_fields r :
  is_valid_roman r = is_valid_roman (rendering (numeral r) (subtractive_notation r)).
Proof. apply is_valid_loop_fields; reflexivity. Qed.

Lemma Roman_init_eq n chk b :
  Roman_init n chk b =
  let s := upper (upper n) in
  match check_chars s 0 with
  | Raise e => Raise e
  | Ret _ =>
      match is_valid_roman (rendering s b) with
      | Raise e => Raise e
      | Ret valid =>
          if chk && negb valid then Raise (ValueError (NotValidRoman s))
          else match roman_to_int (rendering s b) with
               | Raise e => Raise e
               | Ret v => Ret (mk_roman s b chk valid (Some v))
               end
      end
  end.
Proof.
  unfold Roman_init, init_body, subtractive_notation_setter, try_except_attribute_error,
    value_get, check_validity, value_setter, bind, get, put, lift, ret, raise, fresh.
  cbn -[upper check_chars is_valid_roman roman_to_int].
  destruct (check_chars (upper (upper n)) 0) as [u|e];
    cbn -[upper is_valid_roman roman_to_int]; [|reflexivity].
  rewrite is_valid_roman_fields;
    cbn [numeral subtractive_notation set_check set_subtractive_notation set_numeral].
  destruct (is_valid_roman (rendering (upper (upper n)) b)) as [valid|e];
    cbn -[upper roman_to_int]; [|reflexivity].
  destruct (chk && negb valid); cbn -[upper roman_to_int]; [reflexivity|].
  rewrite roman_to_int_fields;
    cbn [numeral subtractive_notation set_is_valid set_check set_subtractive_notation
         set_numeral].
  destruct (roman_to_int (rendering (upper (upper n)) b)) as [v|e] eqn:Hv;
    cbn -[upper roman_to_int]; [|reflexivity].
  rewrite roman_to_int_fields;
    cbn [numeral subtractive_notation set_is_valid set_check set_subtractive_notation
         set_numeral].
  rewrite Hv; cbn -[upper]; rewrite Z.eqb_refl; reflexivity.
Qed.

Lemma tokens_get_positive t i : tokens_get t = Ret i -> 1 <= tok_value i.
Proof.
  unfold tokens_get; cbn [assoc_lookup tokens].
  repeat (destruct (String.eqb t _); [intros H; injection H as <-; cbn; lia|]).
  discriminate.
Qed.

Lemma roman_to_int_loop_ge r l idx sk a z :
  roman_to_int_loop r l idx sk a = Ret z -> a <= z.
Proof.
  revert idx sk a; induction l as [|c l IH]; intros idx sk a; cbn [roman_to_int_loop].
  - intros H; injection H as ->; lia.
  - destruct sk; [apply IH|].
    destruct (get_token r idx c) as [[[t sk'] m]|e]; [|discriminate].
    destruct (tokens_get t) as [i|e] eqn:Ht; [|discriminate].
    intros H; apply IH in H; apply tokens_get_positive in Ht; lia.
Qed.

Lemma roman_to_int_nonneg r z : roman_to_int r = Ret z -> 0 <= z.
Proof. apply roman_to_int_loop_ge. Qed.

Lemma Roman_init_spec n chk b r :
  Roman_init n chk b = Ret r ->
  exists v, r = mk_roman (upper (upper n)) b chk (is_valid r) (Some v) /\
            roman_to_int r = Ret v /\ 0 <= v.
Proof.
  rewrite Roman_init_eq; cbv zeta.
  destruct (check_chars (upper (upper n)) 0); [|discriminate].
  destruct (is_valid_roman (rendering (upper (upper n)) b)) as [valid|]; [|discriminate].
  destruct (chk && negb valid); [discriminate|].
  destruct (roman_to_int (rendering (upper (upper n)) b)) as [v|] eqn:Hv; [|discriminate].
  intros H; injection H as <-.
  exists v; split; [reflexivity|].
  rewrite roman_to_int_fields; split; [exact Hv|].
  exact (roman_to_int_nonneg _ _ Hv).
Qed.

(** ** The setters *)

Lemma numeral_setter_same_value r s v :
  value r = Some v -> roman_to_int (set_numeral r (upper s)) = Ret v ->
  numeral_setter s r = (Ret tt, set_numeral r (upper s), []).
Proof.
  intros Hval Hdec.
  unfold numeral_setter, value_get, bind, get, put, lift, ret, print.
  rewrite Hval; cbn -[roman_to_int upper].
  rewrite Hdec; cbn -[roman_to_int upper].
  rewrite Z.eqb_refl; reflexivity.
Qed.

Lemma numeral_setter_other_value r s v w :
  value r = Some v -> roman_to_int (set_numeral r (upper s)) = Ret w -> v <> w ->
  numeral_setter s r = (Ret tt, r, [mismatch_message]).
Proof.
  intros Hval Hdec Hne.
  unfold numeral_setter, value_get, bind, get, put, lift, ret, print.
  rewrite Hval; cbn -[roman_to_int upper].
  rewrite Hdec; cbn -[roman_to_int upper].
  replace (v =? w) with false by (symmetry; apply Z.eqb_neq; exact Hne).
  destruct r; reflexivity.
Qed.

Lemma subtractive_notation_setter_spec r b v :
  value r = Some v -> 0 <= v ->
  subtractive_notation_setter b r =
    (Ret tt, mk_roman (encode b v) b (check r) (is_valid r) (Some v), []).
Proof.
  intros Hval Hv.
  assert (Hdec : roman_to_int (set_numeral (set_subtractive_notation r b)
                                (upper (encode b v))) = Ret v).
  { rewrite encode_upper, roman_to_int_fields; apply decode_encode; exact Hv. }
  pose proof (numeral_setter_same_value (set_subtractive_notation r b) (encode b v) v
                Hval Hdec) as Hset.
  rewrite encode_upper in Hset.
  destruct r as [num sn ch vl val]; cbn in Hval; subst val.
  cbn [set_subtractive_notation set_numeral] in Hset.
  unfold subtractive_notation_setter, try_except_attribute_error, value_get,
    bind, get, put, lift, ret, raise.
  cbn -[numeral_setter int_to_roman].
  change (int_to_roman (inject_Z v) b false) with (int_to_roman_int v b false).
  rewrite int_to_roman_int_nonneg by exact Hv.
  cbn -[numeral_setter].
  rewrite Hset; reflexivity.
Qed.

Lemma over_alphabet_upper s : over_alphabet s = true -> upper s = s.
Proof.
  induction s as [|c s IH]; cbn [over_alphabet upper]; [reflexivity|].
  intros H; apply andb_prop in H as [Hc Hs].
  rewrite (IH Hs); f_equal.
  apply existsb_exists in Hc as (x & Hin & Hx); apply Ascii.eqb_eq in Hx; subst x.
  cbn in Hin; repeat (destruct Hin as [<-|Hin]; [reflexivity|]); destruct Hin.
Qed.

(** ** Runs of one token *)

Lemma get_token_M r idx : get_token r idx "M" = Ret ("M", false, 0).
Proof. reflexivity. Qed.

Lemma is_valid_loop_Ms r k idx reps :
  is_valid_loop r (repeat_str "M" k) idx false "M" reps = Ret true.
Proof.
  revert idx reps; induction k as [|k IH]; intros idx reps; [reflexivity|].
  change (repeat_str "M" (S k)) with (String "M" (repeat_str "M" k)).
  cbn [is_valid_loop]; rewrite get_token_M.
  cbn -[is_valid_loop Z.ltb Z.add].
  rewrite andb_false_r; apply IH.
Qed.

Lemma is_valid_roman_Ms b k :
  is_valid_roman (rendering (repeat_str "M" k) b) = Ret true.
Proof.
  destruct k as [|k]; [reflexivity|].
  unfold is_valid_roman, rendering; cbn [numeral].
  change (repeat_str "M" (S k)) with (String "M" (repeat_str "M" k)).
  cbn [is_valid_loop]; rewrite get_token_M.
  cbn -[is_valid_loop].
  apply is_valid_loop_Ms.
Qed.

Lemma roman_to_int_Ms b k :
  roman_to_int (rendering (repeat_str "M" k) b) = Ret (1000 * Z.of_nat k).
Proof.
  induction k as [|k IH]; [reflexivity|].
  cbn [repeat_str]; rewrite roman_to_int_M, IH.
  cbn [res_map]; f_equal; lia.
Qed.

(** C2 (as stated, refuted): [Roman("VIV")] is accepted (value 9), but
    toggling [subtractive_notation] to [False] and back to [True] leaves it
    with rendering "IX", not "VIV". *)
Lemma subtractive_toggle_VIV_counterexample :
  Roman_init "VIV" true true = Ret (mk_roman "VIV" true true true (Some 9)) /\
  subtractive_notation_setter false (mk_roman "VIV" true true true (Some 9)) =
    (Ret tt, mk_roman "VIIII" false true true (Some 9), []) /\
  subtractive_notation_setter true (mk_roman "VIIII" false true true (Some 9)) =
    (Ret tt, mk_roman "IX" true true true (Some 9), []) /\
  "IX" <> "VIV".
Proof.
  split; [vm_compute; reflexivity|].
  split; [vm_compute; reflexivity|].
  split; [vm_compute; reflexivity|].
  discriminate.
Qed.

(** C2 (amended): for every instance built with subtractive notation,
    setting [subtractive_notation] to [False] and then to [True] succeeds
    silently, never changes [value], and leaves the rendering
    [int_to_roman(value, False)] and then [int_to_roman(value, True)]: the
    original rendering comes back exactly when it was that canonical
    encoding of the value. *)
Theorem subtractive_toggle_canonical (n : string) (chk : bool) (r : Roman) :
  Roman_init n chk true = Ret r ->
  exists v,
    value r = Some v /\
    subtractive_notation_setter false r =
      (Ret tt, mk_roman (encode false v) false chk (is_valid r) (Some v), []) /\
    subtractive_notation_setter true
      (mk_roman (encode false v) false chk (is_valid r) (Some v)) =
      (Ret tt, mk_roman (encode true v) true chk (is_valid r) (Some v), []) /\
    int_to_roman_int v true false = Ret (encode true v).
Proof.
  intros H.
  destruct (Roman_init_spec n chk true r H) as (v & Hr & _ & Hv).
  exists v.
  assert (Hval : value r = Some v) by (rewrite Hr; reflexivity).
  split; [exact Hval|].
  split.
  { rewrite (subtractive_notation_setter_spec r false v Hval Hv).
    assert (Hc : check r = chk) by (rewrite Hr; reflexivity).
    rewrite Hc; reflexivity. }
  split.
  { erewrite subtractive_notation_setter_spec; [reflexivity|reflexivity|exact Hv]. }
  apply int_to_roman_int_nonneg; exact Hv.
Qed.

Lemma subtractive_toggle_canonical_witness :
  Roman_init "XLV" true true = Ret (mk_roman "XLV" true true true (Some 45)) /\
  exists v,
    value (mk_roman "XLV" true true true (Some 45)) = Some v /\
    subtractive_notation_setter false (mk_roman "XLV" true true true (Some 45)) =
      (Ret tt, mk_roman (encode false v) false true
                 (is_valid (mk_roman "XLV" true true true (Some 45))) (Some v), []) /\
    subtractive_notation_setter true
      (mk_roman (encode false v) false true
         (is_valid (mk_roman "XLV" true true true (Some 45))) (Some v)) =
      (Ret tt, mk_roman (encode true v) true true
                 (is_valid (mk_roman "XLV" true true true (Some 45))) (Some v), []) /\
    int_to_roman_int v true false = Ret (encode true v).
Proof.
  split; [vm_compute; reflexivity|].
  apply (subtractive_toggle_canonical "XLV" true); vm_compute; reflexivity.
Defined.

(** C4: for every constructed instance and every string over the
    alphabet [I V X L C D M] that decodes (in the instance's notation) to an
    integer other than its value, assigning it to [numeral] raises nothing,
    prints the mismatch notice, and leaves the instance as it was. *)
Theorem numeral_setter_rejects_other_value
    (n : string) (chk b : bool) (r : Roman) (s : string) (w : Z) :
  Roman_init n chk b = Ret r ->
  over_alphabet s = true ->
  roman_to_int (set_numeral r s) = Ret w ->
  value r <> Some w ->
  numeral_setter s r = (Ret tt, r, [mismatch_message]).
Proof.
  intros Hinit Hs Hdec Hne.
  destruct (Roman_init_spec n chk b r Hinit) as (v & Hr & _ & _).
  assert (Hval : value r = Some v) by (rewrite Hr; reflexivity).
  apply (numeral_setter_other_value r s v w Hval).
  - rewrite (over_alphabet_upper s Hs); exact Hdec.
  - intros ->; apply Hne; exact Hval.
Qed.

Lemma numeral_setter_rejects_other_value_witness :
  Roman_init "X" true true = Ret (mk_roman "X" true true true (Some 10)) /\
  over_alphabet "V" = true /\
  roman_to_int (set_numeral (mk_roman "X" true true true (Some 10)) "V") = Ret 5 /\
  value (mk_roman "X" true true true (Some 10)) <> Some 5 /\
  numeral_setter "V" (mk_roman "X" true true true (Some 10)) =
    (Ret tt, mk_roman "X" true true true (Some 10), [mismatch_message]).
Proof.
  assert (H1 : Roman_init "X" true true = Ret (mk_roman "X" true true true (Some 10)))
    by (vm_compute; reflexivity).
  assert (H3 : roman_to_int (set_numeral (mk_roman "X" true true true (Some 10)) "V")
               = Ret 5) by (vm_compute; reflexivity).
  assert (H4 : value (mk_roman "X" true true true (Some 10)) <> Some 5)
    by (cbn; congruence).
  split; [exact H1|]. split; [reflexivity|]. split; [exact H3|]. split; [exact H4|].
  exact (numeral_setter_rejects_other_value "X" true true _ "V" 5 H1 eq_refl H3 H4).
Defined.

(** C7: "MMMM" is accepted and decodes to 4000 under both notations; more
    generally any run of [M]s is accepted and decodes to 1000 per [M],
    while every other token of the notation is rejected when repeated five
    times. *)
Theorem unlimited_M :
  (forall b, is_valid_roman (rendering "MMMM" b) = Ret true /\
             roman_to_int (rendering "MMMM" b) = Ret 4000) /\
  (forall b k, is_valid_roman (rendering (repeat_str "M" k) b) = Ret true /\
               roman_to_int (rendering (repeat_str "M" k) b) = Ret (1000 * Z.of_nat k)) /\
  (forall b t, In t (notation_tokens b) -> t <> "M" ->
               is_valid_roman (rendering (repeat_str t 5) b) = Ret false).
Proof.
  split; [|split].
  - intros b; destruct b; vm_compute; split; reflexivity.
  - intros b k; split; [apply is_valid_roman_Ms|apply roman_to_int_Ms].
  - intros b t Hin Hne; destruct b; cbn in Hin;
      repeat (destruct Hin as [<-|Hin];
              [first [exfalso; apply Hne; reflexivity | vm_compute; reflexivity]|]);
      destruct Hin.
Qed.

Lemma unlimited_M_witness :
  (In "XL" (notation_tokens true) /\ "XL" <> "M") /\
  is_valid_roman (rendering (repeat_str "XL" 5) true) = Ret false.
Proof.
  assert (Hin : In "XL" (notation_tokens true)) by (cbn; tauto).
  assert (Hne : "XL" <> "M") by discriminate.
  split; [split; assumption|].
  destruct unlimited_M as (_ & _ & H).
  exact (H true "XL" Hin Hne).
Defined.

(** C8: a negative integer makes [int_to_roman] raise unless
    [accept_negative] is set, in which case it returns "-" followed by the
    encoding of the absolute value, a string [Roman(...)] rejects at
    position 0; a non-integral number ([int(x) != x]) makes it raise. *)
Theorem int_to_roman_negative_and_fractional :
  (forall (n : Z) (b : bool), n < 0 ->
     int_to_roman_int n b false = Raise (ValueError NegativeNotAllowed) /\
     int_to_roman_int (- n) b false = Ret (encode b (- n)) /\
     int_to_roman_int n b true = Ret ("-" ++ encode b (- n)) /\
     forall chk sub, Roman_init ("-" ++ encode b (- n)) chk sub =
                     Raise (ValueError (BadChar "-" 0))) /\
  (forall (x : Q) (b an : bool), ~ (inject_Z (py_int x) == x)%Q ->
     int_to_roman x b an = Raise (ValueError (InvalidValue x))).
Proof.
  split.
  - intros n b Hn.
    destruct (int_to_roman_int_negative n b Hn) as [Hf Ht].
    split; [exact Hf|]. split; [apply int_to_roman_int_nonneg; lia|].
    split; [exact Ht|].
    intros chk sub; rewrite Roman_init_eq; reflexivity.
  - intros x b an Hx; unfold int_to_roman.
    destruct (Qeq_bool (inject_Z (py_int x)) x) eqn:E; [|reflexivity].
    apply Qeq_bool_iff in E; contradiction.
Qed.

Lemma int_to_roman_negative_and_fractional_witness :
  (-14 < 0 /\ ~ (inject_Z (py_int (1 # 2)) == 1 # 2)%Q) /\
  int_to_roman_int (-14) true true = Ret ("-" ++ encode true 14) /\
  Roman_init ("-" ++ encode true 14) true true = Raise (ValueError (BadChar "-" 0)) /\
  int_to_roman (1 # 2) true false = Raise (ValueError (InvalidValue (1 # 2))).
Proof.
  assert (Hn : -14 < 0) by lia.
  assert (Hq : ~ (inject_Z (py_int (1 # 2)) == 1 # 2)%Q)
    by (intros H; vm_compute in H; discriminate).
  destruct int_to_roman_negative_and_fractional as [Hneg Hfrac].
  destruct (Hneg (-14) true Hn) as (_ & _ & Ht & Hinit).
  split; [split; assumption|].
  split; [exact Ht|]. split; [exact (Hinit true true)|].
  exact (Hfrac (1 # 2) true false Hq).
Defined.

(** ** Validity of every encoding *)

Lemma is_valid_loop_shift r r' pre l idx sk p reps :
  numeral r = pre ++ numeral r' ->
  subtractive_notation r = subtractive_notation r' ->
  is_valid_loop r l (String.length pre + idx) sk p reps = is_valid_loop r' l idx sk p reps.
Proof.
  intros Hn Hs; revert idx sk p reps.
  induction l as [|c l IH]; intros idx sk p reps; cbn [is_valid_loop]; [reflexivity|].
  rewrite <- Nat.add_succ_r.
  destruct sk; [apply IH|].
  rewrite (get_token_shift r r' pre idx c Hn Hs).
  destruct (get_token r' idx c) as [[[t sk'] m]|e]; [|reflexivity].
  repeat match goal with
         | |- context [if ?x then _ else _] => destruct x
         | |- context [match ?x with Some _ => _ | None => _ end] => destruct x
         end; try reflexivity; apply IH.
Qed.

Lemma get_token_nonempty r idx c t sk m :
  get_token r idx c = Ret (t, sk, m) -> t <> "".
Proof.
  unfold get_token.
  destruct (tokens_get (String c "")) as [i|e]; [|discriminate].
  destruct (subtractives i) as [|x l]; [intros H; injection H as <-; discriminate|].
  destruct (subtractive_notation r); [|intros H; injection H as <-; discriminate].
  destruct (String.get (S idx) (numeral r)) as [d|]; [|intros H; injection H as <-; discriminate].
  destruct (existsb _ _); intros H; injection H as <-; discriminate.
Qed.

Lemma is_valid_loop_M_reps r l idx sk a b :
  is_valid_loop r l idx sk "M" a = is_valid_loop r l idx sk "M" b.
Proof.
  revert idx sk a b; induction l as [|c l IH]; intros idx sk a b; cbn [is_valid_loop];
    [reflexivity|].
  destruct sk; [apply IH|].
  destruct (get_token r idx c) as [[[t sk'] m]|e]; [|reflexivity].
  destruct (String.eqb "M" t) eqn:Ht; [|reflexivity].
  apply String.eqb_eq in Ht; subst t.
  cbn -[is_valid_loop Z.ltb Z.add].
  rewrite !andb_false_r; apply IH.
Qed.

Lemma is_valid_loop_after_M r l idx :
  is_valid_loop r l idx false "M" 0 = is_valid_loop r l idx false "" 0.
Proof.
  destruct l as [|c l]; cbn [is_valid_loop]; [reflexivity|].
  destruct (get_token r idx c) as [[[t sk'] m]|e] eqn:Hg; [|reflexivity].
  pose proof (get_token_nonempty _ _ _ _ _ _ Hg) as Hne.
  replace (String.eqb "" t) with false by (symmetry; apply String.eqb_neq; congruence).
  destruct (String.eqb "M" t) eqn:Ht.
  - apply String.eqb_eq in Ht; subst t.
    cbn -[is_valid_loop Z.ltb Z.add token_index].
    rewrite andb_false_r; apply is_valid_loop_M_reps.
  - cbn -[is_valid_loop token_index].
    change (token_index "M") with (Some 0%nat).
    change (token_index "") with (@None nat).
    destruct (token_index t); reflexivity.
Qed.

Lemma is_valid_roman_M s b :
  is_valid_roman (rendering ("M" ++ s) b) = is_valid_roman (rendering s b).
Proof.
  unfold is_valid_roman; cbn [numeral rendering].
  change ("M" ++ s) with (String "M" s) at 2.
  cbn [is_valid_loop]; rewrite get_token_M.
  cbn -[is_valid_loop].
  change 1%nat with (String.length "M" + 0)%nat.
  rewrite (is_valid_loop_shift _ (rendering s b) "M") by reflexivity.
  apply is_valid_loop_after_M.
Qed.

Lemma valid_encode_small b n :
  0 <= n <= 3999 -> is_valid_roman (rendering (encode b n) b) = Ret true.
Proof.
  intros Hn.
  assert (Hok : roundtrip_ok b n = true)
    by (destruct (roundtrip_ok_range n Hn); destruct b; assumption).
  destruct (roundtrip_ok_spec b n Hok) as (s & Hs & _ & Hv).
  rewrite int_to_roman_int_nonneg in Hs by lia.
  injection Hs as ->; exact Hv.
Qed.

(** [_is_valid_roman] accepts what [int_to_roman] builds, for every
    non-negative integer, in either notation. *)
Lemma valid_encode b n :
  0 <= n -> is_valid_roman (rendering (encode b n) b) = Ret true.
Proof.
  intros Hn.
  assert (H : forall k : nat, forall m, 0 <= m < 1000 * (Z.of_nat k + 1) ->
            is_valid_roman (rendering (encode b m) b) = Ret true).
  { induction k as [|k IH]; intros m Hm.
    - apply valid_encode_small; lia.
    - destruct (Z.lt_ge_cases m 1000) as [Hlt|Hge].
      + apply valid_encode_small; lia.
      + rewrite Nat2Z.inj_succ in Hm.
        rewrite encode_M, is_valid_roman_M by lia.
        apply IH; lia. }
  apply (H (Z.to_nat n)); rewrite Z2Nat.id by lia; lia.
Qed.

(** C9: "VIV" is accepted under subtractive notation (also by the
    constructor) and decodes to 9, while [int_to_roman(9)] is "IX" and no
    integer is encoded as "VIV": the validator accepts strings outside the
    image of the encoder, on which encoding after decoding is not the
    identity; and every string the encoder produces for an integer
    [n >= 0] is accepted, so the accepted language strictly contains the
    encoder's image. *)
Theorem validator_accepts_non_canonical_VIV :
  (forall n : nat, exists s, int_to_roman_int (Z.of_nat n) true false = Ret s /\
                             is_valid_roman (rendering s true) = Ret true) /\
  is_valid_roman (rendering "VIV" true) = Ret true /\
  roman_to_int (rendering "VIV" true) = Ret 9 /\
  Roman_init "VIV" true true = Ret (mk_roman "VIV" true true true (Some 9)) /\
  int_to_roman_int 9 true false = Ret "IX" /\
  (forall n : Z, int_to_roman_int n true false <> Ret "VIV").
Proof.
  split.
  { intros n; exists (encode true (Z.of_nat n)).
    split; [apply int_to_roman_int_nonneg; lia|apply valid_encode; lia]. }
  split; [vm_compute; reflexivity|].
  split; [vm_compute; reflexivity|].
  split; [vm_compute; reflexivity|].
  split; [vm_compute; reflexivity|].
  intros n H.
  destruct (Z.lt_ge_cases n 0) as [Hn|Hn].
  - destruct (int_to_roman_int_negative n true Hn) as [Hf _].
    rewrite Hf in H; discriminate.
  - rewrite int_to_roman_int_nonneg in H by lia.
    injection H as He.
    pose proof (decode_encode true n) as Hd; rewrite He in Hd.
    assert (Hn9 : n = 9).
    { assert (H9 : roman_to_int (rendering "VIV" true) = Ret 9) by (vm_compute; reflexivity).
      rewrite Hd in H9; [injection H9 as ->; reflexivity | lia]. }
    subst n; vm_compute in He; discriminate.
Qed.

(** C10: a successful assignment to [numeral] only replaces the
    rendering: [value], [subtractive_notation], [check] and [is_valid] are
    kept, [is_valid] is not recomputed, and nothing is printed. *)
Theorem numeral_setter_success_frame (r : Roman) (s : string) (v : Z) :
  value r = Some v ->
  roman_to_int (set_numeral r (upper s)) = Ret v ->
  numeral_setter s r =
    (Ret tt, mk_roman (upper s) (subtractive_notation r) (check r) (is_valid r) (value r), []).
Proof.
  intros Hval Hdec.
  rewrite (numeral_setter_same_value r s v Hval Hdec); reflexivity.
Qed.

Lemma numeral_setter_success_frame_witness :
  Roman_init "IX" true true = Ret (mk_roman "IX" true true true (Some 9)) /\
  is_valid_roman (rendering "VIIII" true) = Ret false /\
  value (mk_roman "IX" true true true (Some 9)) = Some 9 /\
  roman_to_int (set_numeral (mk_roman "IX" true true true (Some 9)) (upper "VIIII")) = Ret 9 /\
  numeral_setter "VIIII" (mk_roman "IX" true true true (Some 9)) =
    (Ret tt, mk_roman "VIIII" true true true (Some 9), []).
Proof.
  assert (H2 : roman_to_int (set_numeral (mk_roman "IX" true true true (Some 9))
                               (upper "VIIII")) = Ret 9) by (vm_compute; reflexivity).
  split; [vm_compute; reflexivity|].
  split; [vm_compute; reflexivity|].
  split; [reflexivity|]. split; [exact H2|].
  exact (numeral_setter_success_frame (mk_roman "IX" true true true (Some 9)) "VIIII" 9
           eq_refl H2).
Defined.


(** * Further properties of the module *)

(** ** The alphabet *)

Lemma over_alphabet_app a c :
  over_alphabet (a ++ c) = over_alphabet a && over_alphabet c.
Proof.
  induction a as [|x a IH]; cbn [over_alphabet append]; [reflexivity|].
  rewrite IH, andb_assoc; reflexivity.
Qed.

Lemma int_to_roman_loop_alphabet f b n x :
  over_alphabet x = true -> over_alphabet (int_to_roman_loop f b n x) = true.
Proof.
  revert n x; induction f as [|f IH]; intros n x Hx; [exact Hx|].
  rewrite int_to_roman_loop_S.
  destruct (0 <? n); [|exact Hx].
  destruct (pick b (rev tokens) n) as [[t v]|] eqn:Hp; [|exact Hx].
  apply IH; rewrite over_alphabet_app, Hx; cbn [andb].
  apply pick_in in Hp; cbn in Hp.
  repeat (destruct Hp as [<-|Hp]; [reflexivity|]); destruct Hp.
Qed.

Lemma encode_alphabet b n : over_alphabet (encode b n) = true.
Proof. apply int_to_roman_loop_alphabet; reflexivity. Qed.

Lemma alphabet_char c :
  existsb (Ascii.eqb c) ["I"; "V"; "X"; "L"; "C"; "D"; "M"]%char = true ->
  c = "I"%char \/ c = "V"%char \/ c = "X"%char \/ c = "L"%char \/
  c = "C"%char \/ c = "D"%char \/ c = "M"%char.
Proof.
  intros Hc; apply existsb_exists in Hc as (x & Hin & Hx).
  apply Ascii.eqb_eq in Hx; subst x.
  cbn in Hin; intuition congruence.
Qed.

Lemma check_chars_alphabet s i : over_alphabet s = true -> check_chars s i = Ret tt.
Proof.
  revert i; induction s as [|c s IH]; intros i; cbn [over_alphabet check_chars];
    [reflexivity|].
  intros H; apply andb_prop in H as [Hc Hs].
  rewrite (IH _ Hs).
  apply alphabet_char in Hc.
  repeat (destruct Hc as [->|Hc]; [reflexivity|]); subst c; reflexivity.
Qed.

(** ** [Roman(int_to_roman(n, s), subtractive_notation=s)] *)

Lemma roman_of_int_nonneg n s :
  0 <= n -> roman_of_int n s = ARet (mk_roman (encode s n) s true true (Some n)).
Proof.
  intros Hn; unfold roman_of_int.
  rewrite int_to_roman_int_nonneg by exact Hn; cbn [alift abind].
  rewrite Roman_init_eq; cbv zeta.
  rewrite !encode_upper, check_chars_alphabet by apply encode_alphabet.
  rewrite valid_encode by exact Hn; cbn [andb negb].
  rewrite decode_encode by exact Hn; reflexivity.
Qed.

Lemma roman_of_int_negative n s :
  n < 0 -> roman_of_int n s = ARaise (CoreError (ValueError NegativeNotAllowed)).
Proof.
  intros Hn; unfold roman_of_int.
  rewrite (proj1 (int_to_roman_int_negative n s Hn)); reflexivity.
Qed.

Lemma roman_of_int_ret n s r :
  roman_of_int n s = ARet r -> 0 <= n /\ r = mk_roman (encode s n) s true true (Some n).
Proof.
  destruct (Z.lt_ge_cases n 0) as [Hn|Hn].
  - rewrite roman_of_int_negative by exact Hn; discriminate.
  - rewrite roman_of_int_nonneg by lia; intros H; injection H as <-; split; [lia|reflexivity].
Qed.

Lemma abind_ret {A B} (x : ares A) (k : A -> ares B) b :
  abind x k = ARet b -> exists a, x = ARet a /\ k a = ARet b.
Proof. destruct x as [a|e]; cbn; [eauto|discriminate]. Qed.

Lemma alift_ret {A} (x : result A) a : alift x = ARet a -> x = Ret a.
Proof. destruct x; cbn; intros H; [injection H as ->; reflexivity|discriminate]. Qed.

Ltac invert_binds :=
  repeat match goal with
         | H : abind _ _ = ARet _ |- _ =>
             let a := fresh "a" in
             let Ha := fresh "Ha" in
             apply abind_ret in H; destruct H as (a & Ha & H); cbv beta in H
         end.

(** ** Totality on strings of Roman letters *)

Lemma get_token_alphabet r idx c :
  existsb (Ascii.eqb c) ["I"; "V"; "X"; "L"; "C"; "D"; "M"]%char = true ->
  exists t sk m i, get_token r idx c = Ret (t, sk, m) /\ tokens_get t = Ret i.
Proof.
  intros Hc; apply alphabet_char in Hc.
  unfold get_token.
  destruct Hc as [->|[->|[->|[->|[->|[->| ->]]]]]]; cbn -[String.get];
    repeat match goal with
           | |- context [if subtractive_notation r then _ else _] =>
               destruct (subtractive_notation r)
           | |- context [match String.get ?i ?s with Some _ => _ | None => _ end] =>
               destruct (String.get i s)
           | |- context [Ascii.eqb ?a ?b] =>
               let E := fresh "E" in
               destruct (Ascii.eqb a b) eqn:E; [apply Ascii.eqb_eq in E; subst a|]
           end;
    cbn; do 4 eexists; split; reflexivity.
Qed.

Lemma is_valid_loop_alphabet r l idx sk p reps :
  over_alphabet l = true -> exists v, is_valid_loop r l idx sk p reps = Ret v.
Proof.
  revert idx sk p reps; induction l as [|c l IH]; intros idx sk p reps;
    cbn [over_alphabet is_valid_loop]; [eauto|].
  intros H; apply andb_prop in H as [Hc Hl].
  destruct sk; [apply IH, Hl|].
  destruct (get_token_alphabet r idx c Hc) as (t & sk' & m & i & Hg & _).
  rewrite Hg.
  repeat match goal with
         | |- context [if ?x then _ else _] => destruct x
         | |- context [match ?x with Some _ => _ | None => _ end] => destruct x
         end; eauto.
Qed.

Lemma roman_to_int_loop_alphabet r l idx sk acc :
  over_alphabet l = true -> exists v, roman_to_int_loop r l idx sk acc = Ret v.
Proof.
  revert idx sk acc; induction l as [|c l IH]; intros idx sk acc;
    cbn [over_alphabet roman_to_int_loop]; [eauto|].
  intros H; apply andb_prop in H as [Hc Hl].
  destruct sk; [apply IH, Hl|].
  destruct (get_token_alphabet r idx c Hc) as (t & sk' & m & i & Hg & Ht).
  rewrite Hg, Ht; apply IH, Hl.
Qed.

Lemma ascii_upper_idem c : ascii_upper (ascii_upper c) = ascii_upper c.
Proof. destruct c as [[] [] [] [] [] [] [] []]; reflexivity. Qed.

Lemma upper_idem s : upper (upper s) = upper s.
Proof. induction s as [|c s IH]; cbn; [reflexivity|]; now rewrite ascii_upper_idem, IH. Qed.

Lemma upper_length s : String.length (upper s) = String.length s.
Proof. induction s as [|c s IH]; cbn; [reflexivity|]; now rewrite IH. Qed.

Lemma check_chars_app a c i :
  over_alphabet a = true -> check_chars (a ++ c) i = check_chars c (String.length a + i).
Proof.
  revert i; induction a as [|x a IH]; intros i; cbn [over_alphabet append check_chars];
    [reflexivity|].
  intros H; apply andb_prop in H as [Hx Ha].
  apply alphabet_char in Hx.
  rewrite (IH (S i) Ha), Nat.add_succ_r; cbn [String.length].
  repeat (destruct Hx as [->|Hx]; [reflexivity|]); subst x; reflexivity.
Qed.

(** In additive notation the decoder adds up the letters one by one. *)
Lemma roman_to_int_loop_additive r l idx acc :
  subtractive_notation r = false -> over_alphabet l = true ->
  roman_to_int_loop r l idx false acc = Ret (acc + letter_sum l).
Proof.
  intros Hs; revert idx acc; induction l as [|c l IH]; intros idx acc;
    cbn [over_alphabet roman_to_int_loop letter_sum].
  - intros _; f_equal; lia.
  - intros H; apply andb_prop in H as [Hc Hl].
    apply alphabet_char in Hc.
    unfold get_token; rewrite Hs.
    destruct Hc as [->|[->|[->|[->|[->|[->| ->]]]]]];
      cbn -[roman_to_int_loop Z.add]; rewrite IH by exact Hl; f_equal; lia.
Qed.

(** A numeral with at least one letter decodes to a positive integer. *)
Lemma roman_to_int_loop_first r c l idx acc v :
  roman_to_int_loop r (String c l) idx false acc = Ret v -> acc + 1 <= v.
Proof.
  cbn [roman_to_int_loop].
  destruct (get_token r idx c) as [[[t sk'] m]|e]; [|discriminate].
  destruct (tokens_get t) as [i|e] eqn:Ht; [|discriminate].
  intros H; apply roman_to_int_loop_ge in H; apply tokens_get_positive in Ht; lia.
Qed.

(** ** Extra properties *)

(** X1: for every integer [n >= 0], in either notation, [int_to_roman(n)]
    returns a string that [_is_valid_roman] accepts and that [roman_to_int]
    decodes back to [n]; the round trip has no upper bound. *)
Theorem int_to_roman_valid_unbounded (n : Z) (b : bool) :
  0 <= n ->
  exists s, int_to_roman_int n b false = Ret s /\
            is_valid_roman (rendering s b) = Ret true /\
            roman_to_int (rendering s b) = Ret n.
Proof.
  intros Hn; exists (encode b n); split; [apply int_to_roman_int_nonneg, Hn|].
  split; [apply valid_encode, Hn|apply decode_encode, Hn].
Qed.

Lemma int_to_roman_valid_unbounded_witness :
  0 <= 123456 /\
  exists s, int_to_roman_int 123456 true false = Ret s /\
            is_valid_roman (rendering s true) = Ret true /\
            roman_to_int (rendering s true) = Ret 123456.
Proof.
  split; [lia|]. apply (int_to_roman_valid_unbounded 123456 true). lia.
Defined.

(** X2: [Roman(int_to_roman(n, subtr_notation=s), subtractive_notation=s)]
    (with the default [check=True]) succeeds for every [n >= 0], giving an
    instance of value [n], rendering [int_to_roman(n, s)] and [is_valid]
    true; for [n < 0] it raises the "Negative integers not allowed"
    [ValueError]. *)
Theorem roman_of_int_spec (n : Z) (s : bool) :
  roman_of_int n s =
    if 0 <=? n then ARet (mk_roman (encode s n) s true true (Some n))
    else ARaise (CoreError (ValueError NegativeNotAllowed)).
Proof.
  destruct (Z.leb_spec 0 n) as [Hn|Hn].
  - apply roman_of_int_nonneg, Hn.
  - apply roman_of_int_negative, Hn.
Qed.

(** X3: the sum of two instances of values [v, w >= 0] is the instance
    built from [v + w] in the notation of the left operand (the right
    operand's notation plays no part), in either arithmetic mode. *)
Theorem roman_add_instances mode self other v w :
  value self = Some v -> value other = Some w -> 0 <= v -> 0 <= w ->
  roman_add mode self (RomanOperand other) =
    ARet (mk_roman (encode (subtractive_notation self) (v + w))
            (subtractive_notation self) true true (Some (v + w))).
Proof.
  intros Hv Hw Hv0 Hw0.
  unfold roman_add, valid_for_arithmetic, int_of, value_of.
  rewrite Hv, Hw; cbn [abind alift].
  apply roman_of_int_nonneg; lia.
Qed.

Lemma roman_add_instances_witness :
  value (mk_roman "CCCXLIX" true true true (Some 349)) = Some 349 /\
  value (mk_roman "XXXXV" false false false (Some 45)) = Some 45 /\
  0 <= 349 /\ 0 <= 45 /\
  roman_add "tolerant" (mk_roman "CCCXLIX" true true true (Some 349))
    (RomanOperand (mk_roman "XXXXV" false false false (Some 45))) =
    ARet (mk_roman (encode true (349 + 45)) true true true (Some (349 + 45))).
Proof.
  split; [reflexivity|]. split; [reflexivity|]. split; [lia|]. split; [lia|].
  apply (roman_add_instances "tolerant" (mk_roman "CCCXLIX" true true true (Some 349))
           (mk_roman "XXXXV" false false false (Some 45)) 349 45);
    [reflexivity|reflexivity|lia|lia].
Defined.

(** X4: once the operand is accepted, [self - other] is the instance built
    from [self.value - int(other)] when that difference is [>= 0], and
    raises the "Negative integers not allowed" [ValueError] otherwise;
    [other - self] likewise with [int(other) - self.value]. *)
Theorem roman_sub_spec mode self other v o :
  value self = Some v -> valid_for_arithmetic mode other = ARet true ->
  int_of other = Ret o ->
  roman_sub mode self other =
    (if o <=? v
     then ARet (mk_roman (encode (subtractive_notation self) (v - o))
                  (subtractive_notation self) true true (Some (v - o)))
     else ARaise (CoreError (ValueError NegativeNotAllowed))) /\
  roman_rsub mode self other =
    (if v <=? o
     then ARet (mk_roman (encode (subtractive_notation self) (o - v))
                  (subtractive_notation self) true true (Some (o - v)))
     else ARaise (CoreError (ValueError NegativeNotAllowed))).
Proof.
  intros Hv Hok Ho.
  unfold roman_sub, roman_rsub, value_of; rewrite Hok, Hv, Ho; cbn [abind alift].
  split.
  - destruct (Z.leb_spec o v); [apply roman_of_int_nonneg|apply roman_of_int_negative]; lia.
  - destruct (Z.leb_spec v o); [apply roman_of_int_nonneg|apply roman_of_int_negative]; lia.
Qed.

Lemma roman_sub_spec_witness :
  value (mk_roman "XLV" true true true (Some 45)) = Some 45 /\
  valid_for_arithmetic "tolerant" (NumberOperand (inject_Z 50)) = ARet true /\
  int_of (NumberOperand (inject_Z 50)) = Ret 50 /\
  roman_sub "tolerant" (mk_roman "XLV" true true true (Some 45)) (NumberOperand (inject_Z 50)) =
    (if 50 <=? 45
     then ARet (mk_roman (encode true (45 - 50)) true true true (Some (45 - 50)))
     else ARaise (CoreError (ValueError NegativeNotAllowed))) /\
  roman_rsub "tolerant" (mk_roman "XLV" true true true (Some 45)) (NumberOperand (inject_Z 50)) =
    (if 45 <=? 50
     then ARet (mk_roman (encode true (50 - 45)) true true true (Some (50 - 45)))
     else ARaise (CoreError (ValueError NegativeNotAllowed))).
Proof.
  split; [reflexivity|]. split; [reflexivity|]. split; [reflexivity|].
  apply (roman_sub_spec "tolerant" (mk_roman "XLV" true true true (Some 45))
           (NumberOperand (inject_Z 50)) 45 50); reflexivity.
Defined.

(** X5: [self + other] and [other + self] ([__add__] and [__radd__]) give
    the same outcome, instance or exception, for every instance and operand;
    so do [self * other] and [other * self]. *)
Theorem roman_add_mul_commute mode self other :
  roman_add mode self other = roman_radd mode self other /\
  roman_mul mode self other = roman_rmul mode self other.
Proof.
  unfold roman_add, roman_radd, roman_mul, roman_rmul.
  destruct (valid_for_arithmetic mode other); cbn [abind]; [|split; reflexivity].
  unfold int_of, value_of.
  destruct (value self) as [v|];
    destruct other as [r|x]; cbn [abind alift];
    try (destruct (value r) as [w|]; cbn [abind alift]);
    rewrite ?(Z.add_comm v), ?(Z.mul_comm v); split; reflexivity.
Qed.

(** X6: whatever the operands, every instance an arithmetic operator
    returns ([+ - * // %] and their reflected forms, and both members of
    the pairs of [divmod] and [/]) is [Roman(int_to_roman(n))] for some
    [n >= 0] in the left operand's notation: value [n], rendering
    [int_to_roman(n)], [check] and [is_valid] true. *)
Theorem arith_results_canonical mode self other
    (op : string -> Roman -> operand -> ares Roman)
    (op2 : string -> Roman -> operand -> ares (Roman * Roman)) r q m :
  In op [roman_add; roman_radd; roman_sub; roman_rsub; roman_mul; roman_rmul;
         roman_floordiv; roman_rfloordiv; roman_mod; roman_rmod] ->
  In op2 [roman_divmod; roman_rdivmod; roman_truediv; roman_rtruediv] ->
  (op mode self other = ARet r ->
   exists n, 0 <= n /\
     r = mk_roman (encode (subtractive_notation self) n)
           (subtractive_notation self) true true (Some n)) /\
  (op2 mode self other = ARet (q, m) ->
   exists n k, 0 <= n /\ 0 <= k /\
     q = mk_roman (encode (subtractive_notation self) n)
           (subtractive_notation self) true true (Some n) /\
     m = mk_roman (encode (subtractive_notation self) k)
           (subtractive_notation self) true true (Some k)).
Proof.
  intros Hop Hop2; split.
  - intros H.
    cbn in Hop; repeat (destruct Hop as [<-|Hop]; [
      unfold roman_add, roman_radd, roman_sub, roman_rsub, roman_mul, roman_rmul,
        roman_floordiv, roman_rfloordiv, roman_mod, roman_rmod in H;
      invert_binds;
      apply roman_of_int_ret in H; destruct H as [Hn ->];
      eexists; split; [exact Hn|reflexivity]|]); destruct Hop.
  - intros H.
    cbn in Hop2; repeat (destruct Hop2 as [<-|Hop2]; [
      unfold roman_truediv, roman_rtruediv, roman_divmod, roman_rdivmod in H;
      invert_binds;
      injection H as <- <-;
      repeat match goal with
             | Hr : roman_of_int _ _ = ARet _ |- _ =>
                 apply roman_of_int_ret in Hr; destruct Hr as [? ->]
             end;
      do 2 eexists; split; [|split; [|split; reflexivity]]; eassumption|]);
      destruct Hop2.
Qed.

Lemma arith_results_canonical_witness :
  In roman_sub [roman_add; roman_radd; roman_sub; roman_rsub; roman_mul; roman_rmul;
                roman_floordiv; roman_rfloordiv; roman_mod; roman_rmod] /\
  In roman_truediv [roman_divmod; roman_rdivmod; roman_truediv; roman_rtruediv] /\
  roman_sub "tolerant" (mk_roman "XLV" true true true (Some 45)) (NumberOperand (inject_Z 3))
    = ARet (mk_roman "XLII" true true true (Some 42)) /\
  roman_truediv "tolerant" (mk_roman "XLV" true true true (Some 45))
    (NumberOperand (inject_Z 3))
    = ARet (mk_roman "XV" true true true (Some 15), mk_roman "" true true true (Some 0)) /\
  (exists n, 0 <= n /\
     mk_roman "XLII" true true true (Some 42) = mk_roman (encode true n) true true true (Some n)) /\
  (exists n k, 0 <= n /\ 0 <= k /\
     mk_roman "XV" true true true (Some 15) = mk_roman (encode true n) true true true (Some n) /\
     mk_roman "" true true true (Some 0) = mk_roman (encode true k) true true true (Some k)).
Proof.
  assert (Hin : In roman_sub [roman_add; roman_radd; roman_sub; roman_rsub; roman_mul;
                  roman_rmul; roman_floordiv; roman_rfloordiv; roman_mod; roman_rmod])
    by (do 2 right; left; reflexivity).
  assert (Hin2 : In roman_truediv [roman_divmod; roman_rdivmod; roman_truediv; roman_rtruediv])
    by (do 2 right; left; reflexivity).
  assert (H1 : roman_sub "tolerant" (mk_roman "XLV" true true true (Some 45))
                 (NumberOperand (inject_Z 3)) = ARet (mk_roman "XLII" true true true (Some 42)))
    by (vm_compute; reflexivity).
  assert (H2 : roman_truediv "tolerant" (mk_roman "XLV" true true true (Some 45))
                 (NumberOperand (inject_Z 3))
               = ARet (mk_roman "XV" true true true (Some 15), mk_roman "" true true true (Some 0)))
    by (vm_compute; reflexivity).
  destruct (arith_results_canonical "tolerant" (mk_roman "XLV" true true true (Some 45))
              (NumberOperand (inject_Z 3)) roman_sub roman_truediv
              (mk_roman "XLII" true true true (Some 42))
              (mk_roman "XV" true true true (Some 15)) (mk_roman "" true true true (Some 0))
              Hin Hin2) as [C1 C2].
  split; [exact Hin|]. split; [exact Hin2|]. split; [exact H1|]. split; [exact H2|].
  split; [exact (C1 H1)|exact (C2 H2)].
Defined.

Lemma valid_for_arithmetic_rejects mode x :
  mode = "strict" \/ ~ (x == inject_Z (py_int x)) ->
  valid_for_arithmetic mode (NumberOperand x) = ARaise OperandError.
Proof.
  intros H; unfold valid_for_arithmetic.
  destruct H as [->|H]; [reflexivity|].
  destruct (Qeq_bool x (inject_Z (py_int x))) eqn:E.
  - apply Qeq_bool_iff in E; contradiction.
  - rewrite andb_false_r; reflexivity.
Qed.

(** X7: in "strict" arithmetic mode each of the operators [+ - * // %],
    their reflected forms, [divmod] and [/] (both directions) rejects a
    number operand, and in any mode it rejects a number with a fractional
    part (it is never truncated): the [ValueError] of
    [_valid_for_arithmetic] is raised before [self.value] is read.
    ([**] is not covered here.) *)
Theorem arith_rejects_number mode self x :
  mode = "strict" \/ ~ (x == inject_Z (py_int x)) ->
  (forall op, In op [roman_add; roman_radd; roman_sub; roman_rsub; roman_mul; roman_rmul;
                     roman_floordiv; roman_rfloordiv; roman_mod; roman_rmod] ->
     op mode self (NumberOperand x) = ARaise OperandError) /\
  (forall op2, In op2 [roman_divmod; roman_rdivmod; roman_truediv; roman_rtruediv] ->
     op2 mode self (NumberOperand x) = ARaise OperandError).
Proof.
  intros H; pose proof (valid_for_arithmetic_rejects mode x H) as Hv.
  split.
  - intros op Hop; cbn in Hop.
    repeat (destruct Hop as [<-|Hop]; [
      unfold roman_add, roman_radd, roman_sub, roman_rsub, roman_mul, roman_rmul,
        roman_floordiv, roman_rfloordiv, roman_mod, roman_rmod;
      rewrite Hv; reflexivity|]); destruct Hop.
  - intros op2 Hop; cbn in Hop.
    repeat (destruct Hop as [<-|Hop]; [
      unfold roman_truediv, roman_rtruediv, roman_divmod, roman_rdivmod;
      rewrite Hv; reflexivity|]); destruct Hop.
Qed.

Lemma arith_rejects_number_witness :
  ("tolerant" = "strict" \/ ~ ((7 # 2) == inject_Z (py_int (7 # 2)))) /\
  (forall op, In op [roman_add; roman_radd; roman_sub; roman_rsub; roman_mul; roman_rmul;
                     roman_floordiv; roman_rfloordiv; roman_mod; roman_rmod] ->
     op "tolerant" fresh (NumberOperand (7 # 2)) = ARaise OperandError) /\
  (forall op2, In op2 [roman_divmod; roman_rdivmod; roman_truediv; roman_rtruediv] ->
     op2 "tolerant" fresh (NumberOperand (7 # 2)) = ARaise OperandError).
Proof.
  assert (H : "tolerant" = "strict" \/ ~ ((7 # 2) == inject_Z (py_int (7 # 2))))
    by (right; vm_compute; discriminate).
  split; [exact H|].
  exact (arith_rejects_number "tolerant" fresh (7 # 2) H).
Defined.

(** X8: for an accepted operand with [int(other) = o > 0] and
    [self.value = v >= 0], [divmod(self, other)] (and [self / other])
    returns the pair of instances built from the quotient [q] and remainder
    [k] of Euclid's division: [v = o * q + k] with [0 <= k < o]. *)
Theorem roman_divmod_positive mode self other v o :
  value self = Some v -> 0 <= v ->
  valid_for_arithmetic mode other = ARet true -> int_of other = Ret o -> 0 < o ->
  exists q k,
    roman_divmod mode self other =
      ARet (mk_roman (encode (subtractive_notation self) q)
              (subtractive_notation self) true true (Some q),
            mk_roman (encode (subtractive_notation self) k)
              (subtractive_notation self) true true (Some k)) /\
    v = o * q + k /\ 0 <= k < o.
Proof.
  intros Hv Hv0 Hok Ho Ho0.
  exists (v / o), (v mod o).
  unfold roman_divmod, py_floordiv, py_mod, value_of; rewrite Hok, Hv, Ho; cbn [abind alift].
  replace (o =? 0) with false by (symmetry; apply Z.eqb_neq; lia); cbn [abind].
  rewrite (roman_of_int_nonneg (v / o)) by (apply Z.div_pos; lia).
  rewrite (roman_of_int_nonneg (v mod o)) by (apply Z.mod_pos_bound; lia).
  cbn [abind]; split; [reflexivity|].
  split; [apply Z.div_mod; lia|apply Z.mod_pos_bound; lia].
Qed.

Lemma roman_divmod_positive_witness :
  value (mk_roman "CCCXLIX" true true true (Some 349)) = Some 349 /\ 0 <= 349 /\
  valid_for_arithmetic "tolerant" (RomanOperand (mk_roman "XLV" true true true (Some 45)))
    = ARet true /\
  int_of (RomanOperand (mk_roman "XLV" true true true (Some 45))) = Ret 45 /\ 0 < 45 /\
  exists q k,
    roman_divmod "tolerant" (mk_roman "CCCXLIX" true true true (Some 349))
      (RomanOperand (mk_roman "XLV" true true true (Some 45))) =
      ARet (mk_roman (encode true q) true true true (Some q),
            mk_roman (encode true k) true true true (Some k)) /\
    349 = 45 * q + k /\ 0 <= k < 45.
Proof.
  split; [reflexivity|]. split; [lia|]. split; [reflexivity|]. split; [reflexivity|].
  split; [lia|].
  apply (roman_divmod_positive "tolerant" (mk_roman "CCCXLIX" true true true (Some 349))
           (RomanOperand (mk_roman "XLV" true true true (Some 45))) 349 45);
    [reflexivity|lia|reflexivity|reflexivity|lia].
Defined.

(** X9: an accepted operand with [int(other) = 0] makes [self // other],
    [self % other], [divmod(self, other)] and [self / other] raise
    [ZeroDivisionError]; an instance of value 0 does the same for
    [other // self], [other % self], [divmod(other, self)] and
    [other / self]. *)
Theorem arith_zero_division mode self other v o :
  value self = Some v -> valid_for_arithmetic mode other = ARet true ->
  int_of other = Ret o ->
  (o = 0 ->
   roman_floordiv mode self other = ARaise ZeroDivisionError /\
   roman_mod mode self other = ARaise ZeroDivisionError /\
   roman_divmod mode self other = ARaise ZeroDivisionError /\
   roman_truediv mode self other = ARaise ZeroDivisionError) /\
  (v = 0 ->
   roman_rfloordiv mode self other = ARaise ZeroDivisionError /\
   roman_rmod mode self other = ARaise ZeroDivisionError /\
   roman_rdivmod mode self other = ARaise ZeroDivisionError /\
   roman_rtruediv mode self other = ARaise ZeroDivisionError).
Proof.
  intros Hv Hok Ho.
  unfold roman_truediv, roman_rtruediv, roman_floordiv, roman_mod, roman_divmod,
    roman_rfloordiv, roman_rmod, roman_rdivmod, py_floordiv, py_mod, value_of.
  rewrite Hok, Hv, Ho; cbn [abind alift].
  split; intros ->; cbn [abind alift Z.eqb];
    repeat split.
Qed.

Lemma arith_zero_division_witness :
  value (mk_roman "" true true true (Some 0)) = Some 0 /\
  valid_for_arithmetic "tolerant" (NumberOperand (inject_Z 0)) = ARet true /\
  int_of (NumberOperand (inject_Z 0)) = Ret 0 /\
  (0 = 0 ->
   roman_floordiv "tolerant" (mk_roman "" true true true (Some 0)) (NumberOperand (inject_Z 0))
     = ARaise ZeroDivisionError /\
   roman_mod "tolerant" (mk_roman "" true true true (Some 0)) (NumberOperand (inject_Z 0))
     = ARaise ZeroDivisionError /\
   roman_divmod "tolerant" (mk_roman "" true true true (Some 0)) (NumberOperand (inject_Z 0))
     = ARaise ZeroDivisionError /\
   roman_truediv "tolerant" (mk_roman "" true true true (Some 0)) (NumberOperand (inject_Z 0))
     = ARaise ZeroDivisionError) /\
  (0 = 0 ->
   roman_rfloordiv "tolerant" (mk_roman "" true true true (Some 0)) (NumberOperand (inject_Z 0))
     = ARaise ZeroDivisionError /\
   roman_rmod "tolerant" (mk_roman "" true true true (Some 0)) (NumberOperand (inject_Z 0))
     = ARaise ZeroDivisionError /\
   roman_rdivmod "tolerant" (mk_roman "" true true true (Some 0)) (NumberOperand (inject_Z 0))
     = ARaise ZeroDivisionError /\
   roman_rtruediv "tolerant" (mk_roman "" true true true (Some 0)) (NumberOperand (inject_Z 0))
     = ARaise ZeroDivisionError).
Proof.
  split; [reflexivity|]. split; [reflexivity|]. split; [reflexivity|].
  apply (arith_zero_division "tolerant" (mk_roman "" true true true (Some 0))
           (NumberOperand (inject_Z 0)) 0 0); reflexivity.
Defined.

(** X10: true division is an alias of [divmod]: [self / other] and
    [other / self] have exactly the outcomes of [divmod(self, other)] and
    [divmod(other, self)], for every instance and operand. *)
Theorem roman_truediv_is_divmod mode self other :
  roman_truediv mode self other = roman_divmod mode self other /\
  roman_rtruediv mode self other = roman_rdivmod mode self other.
Proof.
  unfold roman_truediv, roman_rtruediv.
  destruct (valid_for_arithmetic mode other) eqn:E; cbn [abind]; [split; reflexivity|].
  unfold roman_divmod, roman_rdivmod; rewrite E; split; reflexivity.
Qed.

(** X11: when [divmod(self, other)] returns a pair, [self // other] and
    [self % other] return its first and its second member; likewise for
    [divmod(other, self)] with [other // self] and [other % self]. *)
Theorem floordiv_mod_of_divmod mode self other q k :
  (roman_divmod mode self other = ARet (q, k) ->
   roman_floordiv mode self other = ARet q /\ roman_mod mode self other = ARet k) /\
  (roman_rdivmod mode self other = ARet (q, k) ->
   roman_rfloordiv mode self other = ARet q /\ roman_rmod mode self other = ARet k).
Proof.
  split; intros H.
  - unfold roman_divmod in H; invert_binds; injection H as <- <-.
    unfold roman_floordiv, roman_mod.
    rewrite Ha, Ha0, Ha1; cbn [abind]; rewrite Ha2, Ha3; cbn [abind].
    split; assumption.
  - unfold roman_rdivmod in H; invert_binds; injection H as <- <-.
    unfold roman_rfloordiv, roman_rmod.
    rewrite Ha, Ha0, Ha1; cbn [abind]; rewrite Ha2, Ha3; cbn [abind].
    split; assumption.
Qed.

Lemma floordiv_mod_of_divmod_witness :
  roman_divmod "tolerant" (mk_roman "CCCXLIX" true true true (Some 349))
    (RomanOperand (mk_roman "XLV" true true true (Some 45)))
    = ARet (mk_roman "VII" true true true (Some 7), mk_roman "XXXIV" true true true (Some 34)) /\
  roman_floordiv "tolerant" (mk_roman "CCCXLIX" true true true (Some 349))
    (RomanOperand (mk_roman "XLV" true true true (Some 45)))
    = ARet (mk_roman "VII" true true true (Some 7)) /\
  roman_mod "tolerant" (mk_roman "CCCXLIX" true true true (Some 349))
    (RomanOperand (mk_roman "XLV" true true true (Some 45)))
    = ARet (mk_roman "XXXIV" true true true (Some 34)).
Proof.
  assert (H : roman_divmod "tolerant" (mk_roman "CCCXLIX" true true true (Some 349))
                (RomanOperand (mk_roman "XLV" true true true (Some 45)))
              = ARet (mk_roman "VII" true true true (Some 7),
                      mk_roman "XXXIV" true true true (Some 34)))
    by (vm_compute; reflexivity).
  split; [exact H|].
  exact (proj1 (floordiv_mod_of_divmod "tolerant" (mk_roman "CCCXLIX" true true true (Some 349))
                  (RomanOperand (mk_roman "XLV" true true true (Some 45)))
                  (mk_roman "VII" true true true (Some 7))
                  (mk_roman "XXXIV" true true true (Some 34))) H).
Defined.

(** X12: for a constructed instance, [r.value] is 0 when the numeral is
    the empty string and positive otherwise (every non-empty numeral has a
    positive value), so [bool(r)] is [False] exactly when [r.numeral] is
    empty. *)
Theorem roman_bool_constructed n chk b r :
  Roman_init n chk b = Ret r ->
  (exists v, value r = Some v /\
     (numeral r = "" -> v = 0) /\ (numeral r <> "" -> 0 < v)) /\
  roman_bool r = Ret (negb (String.eqb (numeral r) "")).
Proof.
  intros H; destruct (Roman_init_spec _ _ _ _ H) as (v & Hr & Hd & _).
  assert (Hval : value r = Some v) by (rewrite Hr; reflexivity).
  unfold roman_bool, value_of; rewrite Hval.
  unfold roman_to_int in Hd.
  destruct (numeral r) as [|c l] eqn:En.
  - cbn in Hd; injection Hd as <-.
    split; [|reflexivity].
    exists 0; split; [reflexivity|]; split; [reflexivity|intros []; reflexivity].
  - apply roman_to_int_loop_first in Hd.
    replace (v =? 0) with false by (symmetry; apply Z.eqb_neq; lia).
    split; [|reflexivity].
    exists v; split; [reflexivity|]; split; [discriminate|intros _; lia].
Qed.

Lemma roman_bool_constructed_witness :
  Roman_init "iv" true true = Ret (mk_roman "IV" true true true (Some 4)) /\
  (exists v, value (mk_roman "IV" true true true (Some 4)) = Some v /\
     (numeral (mk_roman "IV" true true true (Some 4)) = "" -> v = 0) /\
     (numeral (mk_roman "IV" true true true (Some 4)) <> "" -> 0 < v)) /\
  roman_bool (mk_roman "IV" true true true (Some 4)) =
    Ret (negb (String.eqb (numeral (mk_roman "IV" true true true (Some 4))) "")).
Proof.
  assert (H4 : Roman_init "iv" true true = Ret (mk_roman "IV" true true true (Some 4)))
    by (vm_compute; reflexivity).
  split; [exact H4|]. exact (roman_bool_constructed "iv" true true _ H4).
Defined.

(** X13: on a constructed instance of value [v], assigning [r.value = w]
    changes nothing: for [w = v] it succeeds and leaves the instance as it
    was, for any other [w] it raises the "can't assign arbitrary values"
    [ValueError], also leaving it unchanged. *)
Theorem value_setter_constructed n chk b r w :
  Roman_init n chk b = Ret r ->
  exists v, value r = Some v /\
    value_setter w r =
      if w =? v then (Ret tt, r, []) else (Raise (ValueError ArbitraryValue), r, []).
Proof.
  intros H; destruct (Roman_init_spec _ _ _ _ H) as (v & Hr & Hd & _).
  assert (Hval : value r = Some v) by (rewrite Hr; reflexivity).
  exists v; split; [exact Hval|].
  unfold value_setter, bind, get, put, lift, ret, raise.
  cbn [fst snd]; rewrite Hd.
  destruct (Z.eqb_spec w v) as [->|Hne]; cbn [negb].
  - destruct r as [num sn ch vl val]; cbn in Hval; subst val; reflexivity.
  - reflexivity.
Qed.

Lemma value_setter_constructed_witness :
  Roman_init "XIV" true true = Ret (mk_roman "XIV" true true true (Some 14)) /\
  exists v, value (mk_roman "XIV" true true true (Some 14)) = Some v /\
    value_setter 15 (mk_roman "XIV" true true true (Some 14)) =
      if 15 =? v then (Ret tt, mk_roman "XIV" true true true (Some 14), [])
      else (Raise (ValueError ArbitraryValue), mk_roman "XIV" true true true (Some 14), []).
Proof.
  assert (H : Roman_init "XIV" true true = Ret (mk_roman "XIV" true true true (Some 14)))
    by (vm_compute; reflexivity).
  split; [exact H|]. exact (value_setter_constructed "XIV" true true _ 15 H).
Defined.

(** X14: validating later agrees with validating at construction: for
    [r = Roman(n, check=False, ...)], [r.check_validity(True)] either
    succeeds and leaves [r] unchanged, in which case [Roman(n, check=True,
    ...)] builds the same instance with [check] true, or raises the "not a
    valid roman numeral" [ValueError] on [r.numeral], again leaving [r]
    unchanged, in which case [Roman(n, check=True, ...)] raises the same
    exception. *)
Theorem check_validity_deferred n b r :
  Roman_init n false b = Ret r ->
  (check_validity true r = (Ret tt, r, []) /\
   Roman_init n true b = Ret (set_check r true)) \/
  (check_validity true r = (Raise (ValueError (NotValidRoman (numeral r))), r, []) /\
   Roman_init n true b = Raise (ValueError (NotValidRoman (numeral r)))).
Proof.
  rewrite !Roman_init_eq; cbv zeta.
  destruct (check_chars (upper (upper n)) 0); [|discriminate].
  destruct (is_valid_roman (rendering (upper (upper n)) b)) as [valid|e] eqn:Hvalid;
    [|discriminate].
  cbn [andb negb].
  destruct (roman_to_int (rendering (upper (upper n)) b)) as [v|e] eqn:Hv; [|discriminate].
  intros H; injection H as <-.
  unfold check_validity, bind, get, put, lift, ret, raise.
  rewrite is_valid_roman_fields; cbn [numeral subtractive_notation fst snd].
  rewrite Hvalid.
  destruct valid; cbn [andb negb].
  - left; split; reflexivity.
  - right; split; reflexivity.
Qed.

Lemma check_validity_deferred_witness :
  Roman_init "IIII" false true = Ret (mk_roman "IIII" true false false (Some 4)) /\
  ((check_validity true (mk_roman "IIII" true false false (Some 4)) =
      (Ret tt, mk_roman "IIII" true false false (Some 4), []) /\
    Roman_init "IIII" true true = Ret (set_check (mk_roman "IIII" true false false (Some 4)) true))
   \/
   (check_validity true (mk_roman "IIII" true false false (Some 4)) =
      (Raise (ValueError (NotValidRoman (numeral (mk_roman "IIII" true false false (Some 4))))),
       mk_roman "IIII" true false false (Some 4), []) /\
    Roman_init "IIII" true true =
      Raise (ValueError (NotValidRoman (numeral (mk_roman "IIII" true false false (Some 4))))))).
Proof.
  assert (H : Roman_init "IIII" false true = Ret (mk_roman "IIII" true false false (Some 4)))
    by (vm_compute; reflexivity).
  split; [exact H|]. exact (check_validity_deferred "IIII" true _ H).
Defined.

(** X15: the constructor does not depend on the case of its argument:
    [Roman(n.upper(), check, s)] and [Roman(n, check, s)] have the same
    outcome, instance or exception. *)
Theorem Roman_init_case_insensitive n chk b :
  Roman_init (upper n) chk b = Roman_init n chk b.
Proof. rewrite !Roman_init_eq, !upper_idem; reflexivity. Qed.

(** X16: if the upper-cased argument of the constructor is made of Roman
    letters up to position [i] and its character at [i] is not one, the
    constructor raises the "... at position i is not a valid roman
    numeral" [ValueError] naming that upper-cased character and [i],
    whatever follows it and whatever [check] and notation. *)
Theorem Roman_init_bad_char p c s chk b :
  over_alphabet (upper p) = true ->
  tokens_mem (String (ascii_upper c) "") = false ->
  Roman_init (p ++ String c s) chk b =
    Raise (ValueError (BadChar (ascii_upper c) (String.length p))).
Proof.
  intros Hp Hc.
  rewrite Roman_init_eq; cbv zeta.
  rewrite upper_idem, upper_app; cbn [upper].
  rewrite check_chars_app by exact Hp.
  cbn [check_chars]; rewrite Hc; cbn [negb].
  rewrite upper_length, Nat.add_0_r; reflexivity.
Qed.

Lemma Roman_init_bad_char_witness :
  over_alphabet (upper "xi") = true /\
  tokens_mem (String (ascii_upper "z") "") = false /\
  Roman_init ("xi" ++ String "z" "V") true true =
    Raise (ValueError (BadChar (ascii_upper "z") (String.length "xi"))).
Proof.
  split; [reflexivity|]. split; [reflexivity|].
  apply (Roman_init_bad_char "xi" "z" "V" true true); reflexivity.
Defined.

(** X17: on an argument whose upper-cased form is made of the letters
    [I V X L C D M], the constructor raises nothing but the validity
    error: [_is_valid_roman] and [roman_to_int] both return, the instance
    stores the upper-cased numeral, the validator's verdict in [is_valid]
    and the decoded value; with [check=True] it raises the "not a valid
    roman numeral" [ValueError] exactly when the verdict is [False]. *)
Theorem Roman_init_alphabet n chk b :
  over_alphabet (upper n) = true ->
  exists valid v,
    is_valid_roman (rendering (upper n) b) = Ret valid /\
    roman_to_int (rendering (upper n) b) = Ret v /\
    Roman_init n chk b =
      if chk && negb valid then Raise (ValueError (NotValidRoman (upper n)))
      else Ret (mk_roman (upper n) b chk valid (Some v)).
Proof.
  intros Hn.
  destruct (is_valid_loop_alphabet (rendering (upper n) b) (upper n) 0 false "" 0 Hn)
    as [valid Hvalid].
  destruct (roman_to_int_loop_alphabet (rendering (upper n) b) (upper n) 0 false 0 Hn)
    as [v Hv].
  exists valid, v; split; [exact Hvalid|]; split; [exact Hv|].
  rewrite Roman_init_eq; cbv zeta; rewrite upper_idem.
  rewrite check_chars_alphabet by exact Hn.
  unfold is_valid_roman in *; unfold roman_to_int in *; cbn [numeral rendering] in *.
  rewrite Hvalid.
  destruct (chk && negb valid); [reflexivity|].
  rewrite Hv; reflexivity.
Qed.

Lemma Roman_init_alphabet_witness :
  over_alphabet (upper "viv") = true /\
  exists valid v,
    is_valid_roman (rendering (upper "viv") true) = Ret valid /\
    roman_to_int (rendering (upper "viv") true) = Ret v /\
    Roman_init "viv" false true =
      if false && negb valid then Raise (ValueError (NotValidRoman (upper "viv")))
      else Ret (mk_roman (upper "viv") true false valid (Some v)).
Proof.
  split; [reflexivity|].
  apply (Roman_init_alphabet "viv" false true); reflexivity.
Defined.

(** X18: in additive notation [roman_to_int] gives the sum of the values
    of the letters, each letter counted on its own (so "IV" is 6). *)
Theorem roman_to_int_additive r :
  subtractive_notation r = false -> over_alphabet (numeral r) = true ->
  roman_to_int r = Ret (letter_sum (numeral r)).
Proof.
  intros Hs Hn; unfold roman_to_int.
  rewrite roman_to_int_loop_additive by assumption; reflexivity.
Qed.

Lemma roman_to_int_additive_witness :
  subtractive_notation (rendering "MCMXCIV" false) = false /\
  over_alphabet (numeral (rendering "MCMXCIV" false)) = true /\
  roman_to_int (rendering "MCMXCIV" false) = Ret (letter_sum (numeral (rendering "MCMXCIV" false))).
Proof.
  split; [reflexivity|]. split; [reflexivity|].
  apply roman_to_int_additive; reflexivity.
Defined.

(** X19: rebuilding an instance from its string gives it back:
    [Roman(str(r), r.check, r.subtractive_notation)] is [r] again, for
    every instance [r] the constructor returns. *)
Theorem Roman_rebuild n chk b r :
  Roman_init n chk b = Ret r ->
  Roman_init (numeral r) (check r) (subtractive_notation r) = Ret r.
Proof.
  intros H; destruct (Roman_init_spec _ _ _ _ H) as (v & Hr & _).
  assert (E : numeral r = upper (upper n) /\ check r = chk /\ subtractive_notation r = b)
    by (rewrite Hr; auto).
  destruct E as (-> & -> & ->).
  rewrite <- H, !Roman_init_eq, !upper_idem; reflexivity.
Qed.

Lemma Roman_rebuild_witness :
  Roman_init "mmxxvi" true true = Ret (mk_roman "MMXXVI" true true true (Some 2026)) /\
  Roman_init (numeral (mk_roman "MMXXVI" true true true (Some 2026)))
    (check (mk_roman "MMXXVI" true true true (Some 2026)))
    (subtractive_notation (mk_roman "MMXXVI" true true true (Some 2026)))
    = Ret (mk_roman "MMXXVI" true true true (Some 2026)).
Proof.
  assert (H : Roman_init "mmxxvi" true true = Ret (mk_roman "MMXXVI" true true true (Some 2026)))
    by (vm_compute; reflexivity).
  split; [exact H|]. exact (Roman_rebuild "mmxxvi" true true _ H).
Defined.

Lemma get_token_additive r idx c :
  subtractive_notation r = false ->
  existsb (Ascii.eqb c) ["I"; "V"; "X"; "L"; "C"; "D"; "M"]%char = true ->
  exists m, get_token r idx c = Ret (String c "", false, m).
Proof.
  intros Hs Hc; apply alphabet_char in Hc; unfold get_token; rewrite Hs.
  destruct Hc as [->|[->|[->|[->|[->|[->| ->]]]]]]; cbn; eauto.
Qed.

Lemma is_valid_loop_additive r l idx p reps :
  subtractive_notation r = false ->
  over_alphabet l = true ->
  existsb (Ascii.eqb p) ["I"; "V"; "X"; "L"; "C"; "D"; "M"]%char = true ->
  is_valid_loop r l idx false (String p "") reps = Ret true ->
  nonincreasing (String p l) = true.
Proof.
  intros Hs; revert idx p reps; induction l as [|c l IH]; intros idx p reps Hl Hp H;
    [reflexivity|].
  cbn [over_alphabet] in Hl; apply andb_prop in Hl as [Hc Hl].
  destruct (get_token_additive r idx c Hs Hc) as [m Hg].
  cbn [is_valid_loop] in H; rewrite Hg in H.
  specialize (IH (S idx) c).
  change (nonincreasing (String p (String c l)))
    with ((letter_value c <=? letter_value p) && nonincreasing (String c l)).
  apply alphabet_char in Hc; apply alphabet_char in Hp.
  destruct Hp as [->|[->|[->|[->|[->|[->| ->]]]]]];
    destruct Hc as [->|[->|[->|[->|[->|[->| ->]]]]]];
    cbn -[is_valid_loop Z.ltb Z.add letter_value nonincreasing] in H; try discriminate;
    match goal with
    | |- context [?x <=? ?y] =>
        let v := eval vm_compute in (x <=? y) in change (x <=? y) with v
    end; cbn [andb];
    try (match type of H with
         | context [if ?x then _ else _] => destruct x; [discriminate|]
         end);
    (eapply IH; [exact Hl|reflexivity|exact H]).
Qed.

(** X20: in additive notation [_is_valid_roman] accepts only numerals
    whose letters come in non-increasing order of value: any letter
    followed by a larger one (as in "IV" or "XM") is rejected. *)
Theorem additive_valid_nonincreasing s :
  over_alphabet s = true ->
  is_valid_roman (rendering s false) = Ret true ->
  nonincreasing s = true.
Proof.
  intros Hs H; destruct s as [|c l]; [reflexivity|].
  cbn [over_alphabet] in Hs; apply andb_prop in Hs as [Hc Hl].
  unfold is_valid_roman in H; cbn [numeral rendering is_valid_loop] in H.
  destruct (get_token_additive (rendering (String c l) false) 0 c eq_refl Hc) as [m Hg].
  rewrite Hg in H.
  cbn -[is_valid_loop] in H.
  exact (is_valid_loop_additive (rendering (String c l) false) l 1 c 0 eq_refl Hl Hc H).
Qed.

Lemma additive_valid_nonincreasing_witness :
  over_alphabet "MDCCLXXVIII" = true /\
  is_valid_roman (rendering "MDCCLXXVIII" false) = Ret true /\
  nonincreasing "MDCCLXXVIII" = true.
Proof.
  split; [reflexivity|]. split; [vm_compute; reflexivity|].
  apply additive_valid_nonincreasing; [reflexivity|vm_compute; reflexivity].
Defined.
